(** * WordRoom: the presentation coordinator of [WordRoom.py]

    A shallow embedding of the view classes, delegates and button actions of
    [WordRoom.py] as state-passing functions over one application state, with
    the imported [vocabulary.Vocabulary] object seen through the interface
    the script uses.  Every call the script makes on the table view and on the
    navigation view is recorded, in order, in the state's [log]. *)

From Stdlib Require Import String Ascii List ZArith Bool Lia PeanoNat.
Import ListNotations.
Open Scope string_scope.
Open Scope list_scope.

(** ** Python values *)

(** A table coordinate: a tuple of two indices.  [selected_rows] of the table
    view and the arguments of [tableview_cell_for_row] are (section, row). *)
Definition coord : Type := (nat * nat)%type.

Definition coord_eqb (a b : coord) : bool :=
  Nat.eqb (fst a) (fst b) && Nat.eqb (snd a) (snd b).

(** [==] on lists of tuples. *)
Fixpoint coords_eqb (l1 l2 : list coord) : bool :=
  match l1, l2 with
  | [], [] => true
  | a :: l1', b :: l2' => coord_eqb a b && coords_eqb l1' l2'
  | _, _ => false
  end.

(** Truth value of a string: the empty string is false. *)
Definition truthy (s : string) : bool := negb (s =? "").

(** [x in words] together with [words.index(x)]: the first position of [x],
    [None] where Python's [in] is false (and [index] would raise). *)
Fixpoint py_index (x : string) (words : list string) : option nat :=
  match words with
  | [] => None
  | w :: rest =>
      if w =? x then Some 0%nat
      else match py_index x rest with
           | Some i => Some (S i)
           | None => None
           end
  end.

(** [text.find(sub)]: the lowest index at which [sub] starts, [-1] if none. *)
Fixpoint find_from (text sub : string) (i : Z) : Z :=
  if String.prefix sub text then i
  else match text with
       | EmptyString => (-1)%Z
       | String _ rest => find_from rest sub (i + 1)%Z
       end.

Definition find (text sub : string) : Z := find_from text sub 0%Z.

(** The tuple comprehension [(x[1], x[0])] of [action_delete]. *)
Definition backwards (x : coord) : coord := (snd x, fst x).

(** ** The vocabulary object

    [vocabulary.py] is imported by the script; these are the attributes and
    methods the script uses on the global [vocab]. *)
Class Vocabulary (V : Type) : Type := {
  get_notes : V -> string -> string;
  list_words : V -> nat -> list string;
  query : V -> string;
  set_query : V -> string -> V;
  set_fulltext_toggle : V -> bool -> V;
  set_word : V -> string -> string -> V * option coord;
  del_dup_word : V -> string -> string -> V * option coord;
  delete_multiple : V -> list coord -> V * list string;
  tableview_cell_for_row : V -> nat -> nat -> option string
}.

(** ** The views *)

(** What [define.define] returns: a dict whose ['definitions'] entry is tested
    for truth; the rest is only handed to the template. *)
Record DefineResult : Type := mkDefineResult {
  definitions : list string;
  d_other : string
}.

(** What a web view was last asked to load. *)
Inductive Html : Type :=
| HtmlEmpty
| HtmlLoading
| HtmlDefinition (d : DefineResult).

(** A view loaded from the [word] UI file: the subviews the script touches. *)
Record WordView : Type := mkWordView {
  word_text : string;            (* self['word'].text *)
  textview_text : string;        (* self['textview'].text *)
  blank_hidden : bool;           (* self['blank'].hidden *)
  share_enabled : bool;          (* self.right_button_items[0].enabled *)
  segmented_index : Z;           (* self['segmentedcontrol1'].selected_index *)
  html_definition : Html;        (* self['webcontainer']['html_definition'] *)
  webcontainer_alpha : Z;        (* 0.0 or 1.0 *)
  textview_alpha : Z             (* 0.0 or 1.0 *)
}.

(** The two instances of the [word] view. *)
Inductive view_id : Type := WordViewR | WordViewC.

(** The view loaded from the [lookup] UI file and its search delegate. *)
Record LookupView : Type := mkLookupView {
  selected_rows : list coord;    (* self['table'].selected_rows *)
  editing : bool;                (* self['table'].editing *)
  search_text : string;          (* self['search_field'].text *)
  search_segment : Z;            (* self['segmentedcontrol1'].selected_index *)
  is_editing : bool;             (* SearchDelegate.is_editing *)
  cancel_enabled : bool;         (* self['cancel'].enabled *)
  delete_enabled : bool;         (* self['editbar']['delete'].enabled *)
  share_multiple_enabled : bool  (* self['editbar']['share'].enabled *)
}.

Definition COMPACT : Z := 1.
Definition REGULAR : Z := 2.

(** [AdaptiveView]: its attributes, the frames of its two subviews, the
    views pushed on [nav_column] (top first) and the size class the device
    currently reports. *)
Record AdaptiveView : Type := mkAdaptiveView {
  open_words : list string;
  last_layout : option Z;
  size_class : Z;                (* horizontal_size_class() *)
  nav_pushed : list view_id;
  self_x : Z; self_width : Z; self_height : Z;
  nav_x : Z; nav_width : Z; nav_height : Z; nav_flex : string;
  content_hidden : bool; content_flex : string;
  content_x : Z; content_width : Z; content_height : Z
}.

(** Calls on the table view and the navigation view, as the script makes
    them. *)
Inductive Event : Type :=
| InsertRows (rows : list coord)
| DeleteRows (rows : list coord)
| SelectRows (rows : list coord)
| ReloadTable
| PushView (v : view_id) (animated : bool)
| PopView (animated : bool)
| HudAlert (n : nat).

Section Script.

Context {V : Type} {vocabulary : Vocabulary V}.

(** The globals of the script. *)
Record App : Type := mkApp {
  vocab : V;
  word_view : WordView;
  compact_word_view : WordView;
  lookup_view : LookupView;
  container : AdaptiveView;
  background : list (view_id * string);  (* calls queued by ui.in_background *)
  log : list Event
}.

Definition with_vocab (v : V) (st : App) : App :=
  mkApp v (word_view st) (compact_word_view st) (lookup_view st)
        (container st) (background st) (log st).

Definition with_lookup (l : LookupView) (st : App) : App :=
  mkApp (vocab st) (word_view st) (compact_word_view st) l
        (container st) (background st) (log st).

Definition with_container (c : AdaptiveView) (st : App) : App :=
  mkApp (vocab st) (word_view st) (compact_word_view st) (lookup_view st)
        c (background st) (log st).

Definition with_background (b : list (view_id * string)) (st : App) : App :=
  mkApp (vocab st) (word_view st) (compact_word_view st) (lookup_view st)
        (container st) b (log st).

Definition emit (e : Event) (st : App) : App :=
  mkApp (vocab st) (word_view st) (compact_word_view st) (lookup_view st)
        (container st) (background st) (log st ++ [e]).

Definition view (self : view_id) (st : App) : WordView :=
  match self with
  | WordViewR => word_view st
  | WordViewC => compact_word_view st
  end.

Definition with_view (self : view_id) (w : WordView) (st : App) : App :=
  match self with
  | WordViewR =>
      mkApp (vocab st) w (compact_word_view st) (lookup_view st)
            (container st) (background st) (log st)
  | WordViewC =>
      mkApp (vocab st) (word_view st) w (lookup_view st)
            (container st) (background st) (log st)
  end.

Definition with_selected_rows (rows : list coord) (l : LookupView)
  : LookupView :=
  mkLookupView rows (editing l) (search_text l) (search_segment l)
               (is_editing l) (cancel_enabled l) (delete_enabled l)
               (share_multiple_enabled l).

Definition with_open_words (ws : list string) (c : AdaptiveView)
  : AdaptiveView :=
  mkAdaptiveView ws (last_layout c) (size_class c) (nav_pushed c)
    (self_x c) (self_width c) (self_height c)
    (nav_x c) (nav_width c) (nav_height c) (nav_flex c)
    (content_hidden c) (content_flex c)
    (content_x c) (content_width c) (content_height c).

Definition with_nav_pushed (s : list view_id) (c : AdaptiveView)
  : AdaptiveView :=
  mkAdaptiveView (open_words c) (last_layout c) (size_class c) s
    (self_x c) (self_width c) (self_height c)
    (nav_x c) (nav_width c) (nav_height c) (nav_flex c)
    (content_hidden c) (content_flex c)
    (content_x c) (content_width c) (content_height c).

(** [nav.push_view(view, animated)] and [nav.pop_view(animated)]; popping
    with nothing pushed leaves the root view in place. *)
Definition push_view (v : view_id) (animated : bool) (st : App) : App :=
  emit (PushView v animated)
    (with_container (with_nav_pushed (v :: nav_pushed (container st))
                                     (container st)) st).

Definition pop_view (animated : bool) (st : App) : App :=
  emit (PopView animated)
    (with_container (with_nav_pushed (tl (nav_pushed (container st)))
                                     (container st)) st).

(** *** WordView *)

(** [WordView.switch_modes]: the closure picked by the segmented control's
    index sets the two alphas.  [animations] is a pair, so index [-1] (no
    segment selected) picks [switch_webview] like index [1].  [end_editing]
    on the text view is left to the framework. *)
Definition switch_modes (w : WordView) : WordView :=
  if (segmented_index w =? 0)%Z then
    mkWordView (word_text w) (textview_text w) (blank_hidden w)
               (share_enabled w) (segmented_index w) (html_definition w) 0 1
  else
    mkWordView (word_text w) (textview_text w) (blank_hidden w)
               (share_enabled w) (segmented_index w) (html_definition w) 1 0.

(** [WordView.select_word]. *)
Definition select_word (self : view_id) (st : App) : App :=
  let w := view self st in
  let section := if truthy (textview_text w) then 0%nat else 1%nat in
  let words := list_words (vocab st) section in
  let section' := if truthy (query (vocab st)) then S section else section in
  match py_index (word_text w) words with
  | Some row =>
      if negb (coords_eqb (selected_rows (lookup_view st)) [(section', row)])
      then emit (SelectRows [(section', row)])
             (with_lookup
                (with_selected_rows [(section', row)] (lookup_view st)) st)
      else st
  | None => st
  end.

(** [WordView.load_word].  The decorated [load_definition] is only queued
    here; its body runs later, see [load_definition]. *)
Definition load_word (self : view_id) (word : string) (force : bool)
  (st : App) : App :=
  let w := view self st in
  if (word_text w =? word) && negb force then st
  else
    let notes := get_notes (vocab st) word in
    let w1 :=
      if truthy notes then
        mkWordView word notes true true 0 (html_definition w)
                   (webcontainer_alpha w) (textview_alpha w)
      else
        mkWordView word notes true true 1 HtmlLoading
                   (webcontainer_alpha w) (textview_alpha w) in
    let st1 := with_view self (switch_modes w1) st in
    let st2 := with_background (background st1 ++ [(self, word)]) st1 in
    select_word self st2.

(** [WordView.clear]. *)
Definition clear (self : view_id) (st : App) : App :=
  let w := view self st in
  let st1 :=
    with_view self
      (mkWordView "" "" false false (segmented_index w) HtmlEmpty
                  (webcontainer_alpha w) (textview_alpha w)) st in
  with_container (with_open_words [] (container st1)) st1.

(** The body of [WordView.load_definition], run on the background thread
    with [d] the value [define.define(word)] returned.  [set_word(word)]
    leaves the notes to the method's default, the empty string. *)
Definition load_definition (self : view_id) (word : string)
  (d : DefineResult) (st : App) : App :=
  let w := view self st in
  let st1 :=
    with_view self
      (mkWordView (word_text w) (textview_text w) (blank_hidden w)
                  (share_enabled w) (segmented_index w) (HtmlDefinition d)
                  (webcontainer_alpha w) (textview_alpha w)) st in
  match definitions d with
  | _ :: _ =>
      if negb (truthy (get_notes (vocab st1) word)) then
        let '(v', row) := set_word (vocab st1) word "" in
        let st2 := with_vocab v' st1 in
        match row with
        | Some r => emit (InsertRows [r]) st2
        | None => st2
        end
      else st1
  | [] => st1
  end.

(** The background thread takes the oldest queued call. *)
Definition run_background (d : DefineResult) (st : App) : App :=
  match background st with
  | [] => st
  | (self, word) :: rest =>
      load_definition self word d (with_background rest st)
  end.

(** *** Functions *)

(** [load_word_view]. *)
Definition load_word_view (word : string) (st : App) : App :=
  let st1 :=
    if (size_class (container st) =? REGULAR)%Z then
      load_word WordViewR word false st
    else
      push_view WordViewC true (load_word WordViewC word false st) in
  with_container (with_open_words [word] (container st1)) st1.

(** [action_switch_search], with [sender] the lookup view's segmented
    control: [bool(selected_index)] is false for index 0 only. *)
Definition action_switch_search (st : App) : App :=
  let b := negb (search_segment (lookup_view st) =? 0)%Z in
  emit ReloadTable (with_vocab (set_fulltext_toggle (vocab st) b) st).

(** *** LookupView *)

(** The loop of [action_delete] over the deleted words; [clear] empties the
    label the next iteration compares with. *)
Fixpoint clear_deleted (words : list string) (st : App) : App :=
  match words with
  | [] => st
  | word :: rest =>
      clear_deleted rest
        (if word_text (word_view st) =? word then clear WordViewR st else st)
  end.

(** [LookupView.action_delete]. *)
Definition action_delete (st : App) : App :=
  let rows := selected_rows (lookup_view st) in
  let '(v', words) := delete_multiple (vocab st) rows in
  let st1 := emit (DeleteRows (map backwards rows)) (with_vocab v' st) in
  emit (HudAlert (length rows)) (clear_deleted words st1).

(** *** AdaptiveView *)

Definition with_last_layout (m : Z) (c : AdaptiveView) : AdaptiveView :=
  mkAdaptiveView (open_words c) (Some m) (size_class c) (nav_pushed c)
    (self_x c) (self_width c) (self_height c)
    (nav_x c) (nav_width c) (nav_height c) (nav_flex c)
    (content_hidden c) (content_flex c)
    (content_x c) (content_width c) (content_height c).

(** The frame assignments at the head of [set_compact]. *)
Definition compact_frames (c : AdaptiveView) : AdaptiveView :=
  mkAdaptiveView (open_words c) (last_layout c) (size_class c) (nav_pushed c)
    (self_x c) (self_width c) (self_height c)
    (self_x c) (self_width c) (self_height c) "WH"
    true (content_flex c)
    (content_x c) (content_width c) (content_height c).

(** The frame assignments at the head of [set_regular]. *)
Definition regular_frames (c : AdaptiveView) : AdaptiveView :=
  mkAdaptiveView (open_words c) (last_layout c) (size_class c) (nav_pushed c)
    (self_x c) (self_width c) (self_height c)
    (self_x c) 320 (self_height c) "H"
    false "WHR"
    (320 + 1) (self_width c - 320 - 1) (self_height c).

(** The loop of [set_compact]. *)
Fixpoint push_open_words (words : list string) (st : App) : App :=
  match words with
  | [] => st
  | word :: rest =>
      push_open_words rest
        (push_view WordViewC false (load_word WordViewC word false st))
  end.

(** The loop of [set_regular]. *)
Fixpoint pop_open_words (words : list string) (st : App) : App :=
  match words with
  | [] => st
  | word :: rest =>
      pop_open_words rest
        (load_word WordViewR word false (pop_view false st))
  end.

(** [AdaptiveView.set_compact]. *)
Definition set_compact (st : App) : App :=
  let st1 := with_container (compact_frames (container st)) st in
  let st2 := push_open_words (open_words (container st1)) st1 in
  with_container (with_last_layout COMPACT (container st2)) st2.

Definition last_layout_is (m : Z) (c : AdaptiveView) : bool :=
  match last_layout c with
  | Some l => (l =? m)%Z
  | None => false
  end.

(** [AdaptiveView.set_regular]. *)
Definition set_regular (st : App) : App :=
  let st1 := with_container (regular_frames (container st)) st in
  let st2 :=
    if last_layout_is COMPACT (container st1) then
      pop_open_words (open_words (container st1)) st1
    else st1 in
  with_container (with_last_layout REGULAR (container st2)) st2.

(** [AdaptiveView.layout]: two [if] statements in sequence, the second
    reading [last_layout] after the first has run. *)
Definition layout (st : App) : App :=
  let new_layout := size_class (container st) in
  let st1 :=
    if (new_layout =? REGULAR)%Z && negb (last_layout_is REGULAR (container st))
    then set_regular st else st in
  if (new_layout =? COMPACT)%Z && negb (last_layout_is COMPACT (container st1))
  then set_compact st1 else st1.

(** The device reports a new horizontal size class and the framework calls
    [layout]. *)
Definition with_size_class (m : Z) (c : AdaptiveView) : AdaptiveView :=
  mkAdaptiveView (open_words c) (last_layout c) m (nav_pushed c)
    (self_x c) (self_width c) (self_height c)
    (nav_x c) (nav_width c) (nav_height c) (nav_flex c)
    (content_hidden c) (content_flex c)
    (content_x c) (content_width c) (content_height c).

Definition layout_changed (m : Z) (st : App) : App :=
  layout (with_container (with_size_class m (container st)) st).

(** *** Delegates *)

(** [TableViewDelegate.tableview_did_select].  A coordinate the data source
    cannot resolve raises in [tableview_cell_for_row]; nothing is opened.
    [end_editing] on the search field is left to the framework. *)
Definition tableview_did_select (section row : nat) (st : App) : App :=
  let l := lookup_view st in
  if editing l then
    with_lookup
      (mkLookupView (selected_rows l) (editing l) (search_text l)
                    (search_segment l) (is_editing l) (cancel_enabled l)
                    true true) st
  else
    match tableview_cell_for_row (vocab st) section row with
    | Some text => load_word_view text st
    | None => st
    end.

(** [WebDelegate.webview_should_start_load] on a clicked [wordroom://word/]
    link, [word] being the unquoted path, and on the [-change_key] link
    (after the key dialog), both for the web view of [self]. *)
Definition link_word (self : view_id) (word : string) (st : App) : App :=
  load_word self word false st.

Definition link_change_key (self : view_id) (st : App) : App :=
  load_word self (word_text (view self st)) true st.

(** [TextViewDelegate.textview_did_end_editing], [textview] being the text
    view of [self]. *)
Definition textview_did_end_editing (self : view_id) (st : App) : App :=
  let word := word_text (view self st) in
  let notes := textview_text (view self st) in
  let '(v1, row) := set_word (vocab st) word notes in
  let st1 := with_vocab v1 st in
  let st2 :=
    match row with
    | Some r => emit (InsertRows [r]) st1
    | None => st1
    end in
  let '(v2, row') := del_dup_word (vocab st2) word notes in
  let st3 := with_vocab v2 st2 in
  match row' with
  | Some r => emit (DeleteRows [r]) st3
  | None => st3
  end.

(** The user leaves the text view of [self] with [notes] typed in it. *)
Definition with_textview_text (notes : string) (w : WordView) : WordView :=
  mkWordView (word_text w) notes (blank_hidden w) (share_enabled w)
             (segmented_index w) (html_definition w)
             (webcontainer_alpha w) (textview_alpha w).

Definition notes_edited (self : view_id) (notes : string) (st : App) : App :=
  textview_did_end_editing self
    (with_view self (with_textview_text notes (view self st)) st).

(** [SearchDelegate.textfield_did_end_editing]: the flag and the button;
    the animated frames of the field and the button are not kept. *)
Definition textfield_did_end_editing (st : App) : App :=
  let l := lookup_view st in
  with_lookup
    (mkLookupView (selected_rows l) (editing l) (search_text l)
                  (search_segment l) false
                  (if truthy (search_text l) then cancel_enabled l else false)
                  (delete_enabled l) (share_multiple_enabled l)) st.

Definition with_search_segment (i : Z) (l : LookupView) : LookupView :=
  mkLookupView (selected_rows l) (editing l) (search_text l) i
               (is_editing l) (cancel_enabled l) (delete_enabled l)
               (share_multiple_enabled l).

(** [SearchDelegate.textfield_did_change]. *)
Definition textfield_did_change (st : App) : App :=
  let text := search_text (lookup_view st) in
  let st1 := with_vocab (set_query (vocab st) text) st in
  let st2 :=
    if negb (find text "#" =? -1)%Z then
      action_switch_search
        (with_lookup (with_search_segment 1 (lookup_view st1)) st1)
    else st1 in
  let st3 :=
    if negb (is_editing (lookup_view st2)) then textfield_did_end_editing st2
    else st2 in
  emit ReloadTable st3.

(** The user changes the text of the search field to [text]. *)
Definition with_search_text (text : string) (l : LookupView) : LookupView :=
  mkLookupView (selected_rows l) (editing l) text (search_segment l)
               (is_editing l) (cancel_enabled l) (delete_enabled l)
               (share_multiple_enabled l).

Definition query_typed (text : string) (st : App) : App :=
  textfield_did_change
    (with_lookup (with_search_text text (lookup_view st)) st).

(** The user taps a segment of the search control. *)
Definition search_switched (i : Z) (st : App) : App :=
  action_switch_search
    (with_lookup (with_search_segment i (lookup_view st)) st).

(** *** Runs of the script *)

(** What can happen to the running script: the callbacks above, each with
    what the user or the device supplies. *)
Inductive Op : Type :=
| OpOpen (word : string)                    (* load_word_view *)
| OpSelect (section row : nat)              (* tableview_did_select *)
| OpLink (self : view_id) (word : string)   (* a wordroom://word/ link *)
| OpChangeKey (self : view_id)              (* the -change_key link *)
| OpDefined (d : DefineResult)              (* a queued fetch returns *)
| OpNotes (self : view_id) (notes : string) (* textview_did_end_editing *)
| OpDelete                                  (* action_delete *)
| OpLayout (m : Z)                          (* layout *)
| OpQuery (text : string)                   (* textfield_did_change *)
| OpSwitchSearch (i : Z).                   (* action_switch_search *)

Definition step (o : Op) (st : App) : App :=
  match o with
  | OpOpen word => load_word_view word st
  | OpSelect section row => tableview_did_select section row st
  | OpLink self word => link_word self word st
  | OpChangeKey self => link_change_key self st
  | OpDefined d => run_background d st
  | OpNotes self notes => notes_edited self notes st
  | OpDelete => action_delete st
  | OpLayout m => layout_changed m st
  | OpQuery text => query_typed text st
  | OpSwitchSearch i => search_switched i st
  end.

Fixpoint run (ops : list Op) (st : App) : App :=
  match ops with
  | [] => st
  | o :: rest => run rest (step o st)
  end.

End Script.

Arguments App V : clear implicits.

(** ** The word store

    [vocabulary.py] is not among the sources at hand.  The store below follows
    sections 4.1 and 4.2 of the spec, over the data model of its section 3;
    the case folding that gives the identity key and the ordering policy of
    the sections, both left open there, are parameters. *)

(** Modelled from the spec: the state of the [Vocabulary] object (missing:
    [vocabulary.py]): the entries as (word, notes) pairs, the query text and
    the scope switch the script assigns. *)
Record Store : Type := mkStore {
  entries : list (string * string);
  query_text : string;
  fulltext_toggle : bool
}.

Section WordStore.

Variable identity_key : string -> string.
Variable ordering : list (string * string) -> list (string * string).

(** Modelled from the spec: substring containment, for the missing
    [Vocabulary] search. *)
Definition contains (text sub : string) : bool :=
  negb (find text sub =? -1)%Z.

(** Modelled from the spec: the filter of section 4.2 (missing:
    [vocabulary.py]).  No filtering on an empty text; the word, case folded,
    in word scope; the notes body in note scope. *)
Definition matches (v : Store) (e : string * string) : bool :=
  if truthy (query_text v) then
    if fulltext_toggle v then contains (snd e) (query_text v)
    else contains (identity_key (fst e)) (identity_key (query_text v))
  else true.

(** Modelled from the spec: section membership (missing: [vocabulary.py]):
    0 is Annotated (notes not empty), 1 is History. *)
Definition in_section (section : nat) (e : string * string) : bool :=
  match section with
  | 0%nat => truthy (snd e)
  | 1%nat => negb (truthy (snd e))
  | _ => false
  end.

(** Modelled from the spec: [Vocabulary.list_words] (missing:
    [vocabulary.py]), the words of a section under the current query, in the
    policy's order. *)
Definition store_list_words (v : Store) (section : nat) : list string :=
  map fst
    (filter (fun e => in_section section e && matches v e)
            (ordering (entries v))).

(** Modelled from the spec: [Vocabulary.get_notes] (missing:
    [vocabulary.py]): the notes of the entry with the word's identity key,
    the empty string if there is none. *)
Definition store_get_notes (v : Store) (word : string) : string :=
  match List.find (fun e => identity_key (fst e) =? identity_key word)
                  (entries v) with
  | Some e => snd e
  | None => ""
  end.

(** Modelled from the spec: the table section of a store section (missing:
    [vocabulary.py]).  With a query typed the live-search row comes first
    and the two sections follow it, as [WordView.select_word] counts them. *)
Definition table_section (v : Store) (section : nat) : nat :=
  if truthy (query_text v) then S section else section.

(** Modelled from the spec: the coordinate at which a word of the store is
    listed, if the query lets it through (missing: [vocabulary.py]). *)
Definition coordinate_of (v : Store) (word : string) : option coord :=
  match List.find (fun e => fst e =? word) (entries v) with
  | Some e =>
      let section := if truthy (snd e) then 0%nat else 1%nat in
      match py_index word (store_list_words v section) with
      | Some row => Some (table_section v section, row)
      | None => None
      end
  | None => None
  end.

(** Modelled from the spec: [cellAt] (missing:
    [Vocabulary.tableview_cell_for_row]); [None] is [OutOfRange]. *)
Definition cell_at (v : Store) (section row : nat) : option string :=
  if truthy (query_text v) then
    match section with
    | 0%nat => match row with
               | 0%nat => Some (query_text v)
               | _ => None
               end
    | S section' => nth_error (store_list_words v section') row
    end
  else nth_error (store_list_words v section) row.

(** Modelled from the spec: a store with its entries replaced (missing:
    [vocabulary.py]); the query and the scope stay. *)
Definition with_entries (es : list (string * string)) (v : Store) : Store :=
  mkStore es (query_text v) (fulltext_toggle v).

(** Modelled from the spec: the create-or-update half of [setNotes]
    (missing: [Vocabulary.set_word]).  An entry spelled exactly [word] has
    its notes overwritten and no row is reported; otherwise a new entry is
    written and the row at which it is listed is reported. *)
Definition store_set_word (v : Store) (word notes : string)
  : Store * option coord :=
  if existsb (fun e => fst e =? word) (entries v) then
    (with_entries
       (map (fun e => if fst e =? word then (word, notes) else e) (entries v))
       v, None)
  else
    let v' := with_entries (entries v ++ [(word, notes)]) v in
    (v', coordinate_of v' word).

(** Modelled from the spec: the dedup half of [setNotes] (missing:
    [Vocabulary.del_dup_word]).  The entry with [word]'s identity key and
    another spelling is the stale duplicate: it is removed and the
    coordinate at which it was listed is reported.  The notes were written
    by [set_word] already. *)
Definition store_del_dup_word (v : Store) (word notes : string)
  : Store * option coord :=
  match List.find
          (fun e => (identity_key (fst e) =? identity_key word)
                    && negb (fst e =? word))
          (entries v) with
  | Some stale =>
      (with_entries
         (filter (fun e => negb (fst e =? fst stale)) (entries v)) v,
       coordinate_of v (fst stale))
  | None => (v, None)
  end.

(** Modelled from the spec: the words at the coordinates given to
    [deleteWords] (missing: [Vocabulary.delete_multiple]).  Every
    coordinate is resolved against the sections as they stand, which is
    what deleting the highest rows first achieves. *)
Definition resolve_rows (v : Store) (rows : list coord) : list string :=
  flat_map (fun c => match cell_at v (fst c) (snd c) with
                     | Some w => [w]
                     | None => []
                     end) rows.

(** Modelled from the spec: [deleteWords] (missing:
    [Vocabulary.delete_multiple]): the resolved words leave the store and
    are returned, in the order of [rows]. *)
Definition store_delete_multiple (v : Store) (rows : list coord)
  : Store * list string :=
  let words := resolve_rows v rows in
  (with_entries
     (filter (fun e => negb (existsb (String.eqb (fst e)) words)) (entries v))
     v, words).

(** Modelled from the spec: the [Vocabulary] object the script imports
    (missing: [vocabulary.py]), its methods filled with the store;
    [set_query] keeps the text as given and [fulltext_toggle] is a plain
    attribute. *)
Definition store_vocabulary : Vocabulary Store := {|
  get_notes := store_get_notes;
  list_words := store_list_words;
  query := query_text;
  set_query := fun v text => mkStore (entries v) text (fulltext_toggle v);
  set_fulltext_toggle := fun v b => mkStore (entries v) (query_text v) b;
  set_word := store_set_word;
  del_dup_word := store_del_dup_word;
  delete_multiple := store_delete_multiple;
  tableview_cell_for_row := cell_at
|}.

(** Modelled from the spec: the invariant of the data model (missing:
    [vocabulary.py]), at most one entry per identity key. *)
Definition unique_keys (v : Store) : Prop :=
  NoDup (map (fun e => identity_key (fst e)) (entries v)).

(** A note edit as the user makes it: the word is open in the view [self]
    (a link, a row or the search field led there through [load_word]), the
    user types [notes] and leaves the text view. *)
Definition edit_notes (e : view_id * string * string) (st : App Store)
  : App Store :=
  let '(self, word, notes) := e in
  notes_edited (vocabulary := store_vocabulary) self notes
    (load_word (vocabulary := store_vocabulary) self word false st).

Fixpoint edit_all (es : list (view_id * string * string)) (st : App Store)
  : App Store :=
  match es with
  | [] => st
  | e :: rest => edit_all rest (edit_notes e st)
  end.

End WordStore.

(** ** A store to run

    ASCII lower-casing as the case folding and newest-first as the ordering
    policy, for running the script on concrete words. *)

Definition lower_ascii (c : ascii) : ascii :=
  let n := nat_of_ascii c in
  if (65 <=? n)%nat && (n <=? 90)%nat then ascii_of_nat (n + 32) else c.

Fixpoint lower (s : string) : string :=
  match s with
  | EmptyString => EmptyString
  | String c rest => String (lower_ascii c) (lower rest)
  end.

Definition newest_first (es : list (string * string))
  : list (string * string) := rev es.

Definition ascii_vocabulary : Vocabulary Store :=
  store_vocabulary lower newest_first.

(** The views as loaded, with nothing open, and [AdaptiveView.__init__] on
    an 800 by 600 screen reporting the size class [m]. *)
Definition blank_word_view : WordView :=
  mkWordView "" "" false false 0 HtmlEmpty 0 1.

Definition idle_lookup_view : LookupView :=
  mkLookupView [] false "" 0 false false false false.

Definition new_container (m : Z) : AdaptiveView :=
  mkAdaptiveView [] None m [] 0 800 600 0 0 0 "" false "" 0 0 0.

Definition launch (es : list (string * string)) (m : Z) : App Store :=
  mkApp (mkStore es "" false) blank_word_view blank_word_view
        idle_lookup_view (new_container m) [] [].

(** [AdaptiveView.__init__] on the running script: nothing open, no layout
    applied yet. *)
Definition restarted {V : Type} (st : App V) : App V :=
  with_container
    (mkAdaptiveView [] None (size_class (container st))
       (nav_pushed (container st))
       (self_x (container st)) (self_width (container st))
       (self_height (container st))
       (nav_x (container st)) (nav_width (container st))
       (nav_height (container st)) (nav_flex (container st))
       (content_hidden (container st)) (content_flex (container st))
       (content_x (container st)) (content_width (container st))
       (content_height (container st))) st.

(** Does the character occur in the text? *)
Definition occurs (c : ascii) (text : string) : bool :=
  existsb (Ascii.eqb c) (list_ascii_of_string text).

Definition is_select (e : Event) : bool :=
  match e with
  | SelectRows _ => true
  | _ => false
  end.

(** ** The rest of the script *)

(** The line feed of the string literals. *)
Definition LF : string := String "010"%char EmptyString.

(** [export_notes_format]: ['%s\n\n%s' % (word, notes)]. *)
Definition export_notes_format (word notes : string) : string :=
  (word ++ LF ++ LF ++ notes)%string.

(** [s[1:]]. *)
Definition from_1 (s : string) : string :=
  match s with
  | EmptyString => EmptyString
  | String _ rest => rest
  end.

(** The characters [str.isspace] accepts, which [str.strip] removes, by
    their UTF-8 bytes (the text is read as UTF-8): in one byte U+0009 to
    U+000D and U+001C to U+0020; in two bytes U+0085 and U+00A0; in three
    bytes U+1680, U+2000 to U+200A, U+2028, U+2029, U+202F, U+205F and
    U+3000. *)
Definition space1 (a : ascii) : bool :=
  let x := nat_of_ascii a in
  ((9 <=? x)%nat && (x <=? 13)%nat) || ((28 <=? x)%nat && (x <=? 32)%nat).

Definition space2 (a b : ascii) : bool :=
  let x := nat_of_ascii a in
  let y := nat_of_ascii b in
  (x =? 194)%nat && ((y =? 133)%nat || (y =? 160)%nat).

Definition space3 (a b c : ascii) : bool :=
  let x := nat_of_ascii a in
  let y := nat_of_ascii b in
  let z := nat_of_ascii c in
  ((x =? 225)%nat && (y =? 154)%nat && (z =? 128)%nat)
  || ((x =? 226)%nat && (y =? 128)%nat
      && (((128 <=? z)%nat && (z <=? 138)%nat)
          || (z =? 168)%nat || (z =? 169)%nat || (z =? 175)%nat))
  || ((x =? 226)%nat && (y =? 129)%nat && (z =? 159)%nat)
  || ((x =? 227)%nat && (y =? 128)%nat && (z =? 128)%nat).

(** [text.lstrip()]: the white-space characters at the head removed. *)
Fixpoint lstrip (s : string) : string :=
  match s with
  | EmptyString => EmptyString
  | String a r1 =>
      if space1 a then lstrip r1
      else match r1 with
           | EmptyString => s
           | String b r2 =>
               if space2 a b then lstrip r2
               else match r2 with
                    | EmptyString => s
                    | String c r3 => if space3 a b c then lstrip r3 else s
                    end
           end
  end.

(** The same on a text given last byte first, where the bytes of a
    character come in reverse. *)
Fixpoint lstrip_reversed (s : string) : string :=
  match s with
  | EmptyString => EmptyString
  | String c r1 =>
      if space1 c then lstrip_reversed r1
      else match r1 with
           | EmptyString => s
           | String b r2 =>
               if space2 b c then lstrip_reversed r2
               else match r2 with
                    | EmptyString => s
                    | String a r3 =>
                        if space3 a b c then lstrip_reversed r3 else s
                    end
           end
  end.

Definition reversed (s : string) : string :=
  string_of_list_ascii (rev (list_ascii_of_string s)).

(** [text.strip()]: the white space at both ends removed. *)
Definition strip (s : string) : string :=
  reversed (lstrip_reversed (reversed (lstrip s))).

(** A text made of white-space characters only. *)
Fixpoint only_spaces (s : string) : bool :=
  match s with
  | EmptyString => true
  | String a r1 =>
      if space1 a then only_spaces r1
      else match r1 with
           | EmptyString => false
           | String b r2 =>
               if space2 a b then only_spaces r2
               else match r2 with
                    | EmptyString => false
                    | String c r3 =>
                        if space3 a b c then only_spaces r3 else false
                    end
           end
  end.

(** What [urlparse] returns, as far as the script reads it. *)
Record ParseResult : Type := mkParseResult {
  scheme : string;
  netloc : string;
  path : string
}.

(** What a callback does outside the views and the vocabulary. *)
Inductive Outside : Type :=
| OpenInSafari (url : string)      (* webbrowser.get('safari').open(url) *)
| ChangeKeyDialog                  (* action_change_key() *)
| PrintUnknown (p : ParseResult).  (* print('unknown url:', parsed_url) *)

(** The bars of the lookup view that [start_editing] and [end_editing]
    swap; a frame is (x, y, width, height). *)
Record Bars : Type := mkBars {
  toolbar_hidden : bool;           (* self['toolbar'].hidden *)
  editbar_hidden : bool;           (* self['editbar'].hidden *)
  toolbar_frame : Z * Z * Z * Z;   (* self['toolbar'].frame *)
  editbar_frame : Z * Z * Z * Z    (* self['editbar'].frame *)
}.

(** The table's editing flag and the two buttons of the edit bar. *)
Definition edit_flags (l : LookupView) : bool * bool * bool :=
  (editing l, delete_enabled l, share_multiple_enabled l).

(** The frames of the search bar that the animations of the search
    delegate assign: the width of the search field, the x of the Cancel
    button, and the two widths they are computed from. *)
Record SearchFrames : Type := mkSearchFrames {
  field_width : Z;                 (* textfield.width *)
  cancel_x : Z;                    (* cancel.x *)
  cancel_width : Z;                (* cancel.width *)
  lookup_width : Z                 (* view.width *)
}.

(** The closure [animation] of [textfield_did_begin_editing]. *)
Definition begin_animation (f : SearchFrames) : SearchFrames :=
  mkSearchFrames (field_width f - (cancel_width f + 6))
                 (lookup_width f - cancel_width f - 6)
                 (cancel_width f) (lookup_width f).

(** The closure [animation] of [textfield_did_end_editing]. *)
Definition end_animation (f : SearchFrames) : SearchFrames :=
  mkSearchFrames (lookup_width f - 12) (lookup_width f + 6)
                 (cancel_width f) (lookup_width f).


(** The two buttons of the edit bar are enabled only with the table in
    editing mode. *)
Definition edit_buttons_ok (l : LookupView) : bool :=
  implb (delete_enabled l || share_multiple_enabled l) (editing l).

Section Callbacks.

Context {V : Type} {vocabulary : Vocabulary V}.

(** [urllib.parse.unquote]. *)
Variable unquote : string -> string.

(** [WebDelegate.webview_should_start_load] for the web view inside the
    view [self], with [parsed_url] the value [urlparse(url)] returns: the
    state, the value returned to the web view and what was done outside. *)
Definition webview_should_start_load (self : view_id)
  (url : string) (parsed_url : ParseResult) (nav_type : string) (st : App V)
  : App V * bool * list Outside :=
  if nav_type =? "link_clicked" then
    if scheme parsed_url =? "wordroom" then
      if netloc parsed_url =? "word" then
        (load_word self (unquote (from_1 (path parsed_url))) false st,
         false, [])
      else if netloc parsed_url =? "-change_key" then
        (load_word self (word_text (view self st)) true st,
         false, [ChangeKeyDialog])
      else (st, false, [PrintUnknown parsed_url])
    else (st, false, [OpenInSafari url])
  else (st, true, []).

(** The loop of [WordView.action_search]: one [pop_view()] per open
    word. *)
Fixpoint pop_each (words : list string) (st : App V) : App V :=
  match words with
  | [] => st
  | _ :: rest => pop_each rest (pop_view true st)
  end.

(** [WordView.action_search]; [begin_editing] on the search field is left
    to the framework. *)
Definition action_search (st : App V) : App V :=
  if (size_class (container st) =? COMPACT)%Z
  then pop_each (open_words (container st)) st
  else st.

(** [action_cancel]; [end_editing] on the search field is left to the
    framework. *)
Definition action_cancel (st : App V) : App V :=
  textfield_did_change
    (with_lookup (with_search_text "" (lookup_view st)) st).

(** [SearchDelegate.textfield_should_return]: the state and the value
    returned; [end_editing] on the search field is left to the
    framework. *)
Definition textfield_should_return (st : App V) : App V * bool :=
  let text := search_text (lookup_view st) in
  (if truthy text then load_word_view (strip text) st else st, true).

(** [LookupView.start_editing]. *)
Definition start_editing (s : App V * Bars) : App V * Bars :=
  let '(st, b) := s in
  let l := lookup_view st in
  (with_lookup
     (mkLookupView (selected_rows l) true (search_text l) (search_segment l)
                   (is_editing l) (cancel_enabled l) (delete_enabled l)
                   (share_multiple_enabled l)) st,
   mkBars true false (toolbar_frame b) (toolbar_frame b)).

(** [LookupView.end_editing]. *)
Definition end_editing (s : App V * Bars) : App V * Bars :=
  let '(st, b) := s in
  let l := lookup_view st in
  (with_lookup
     (mkLookupView (selected_rows l) false (search_text l) (search_segment l)
                   (is_editing l) (cancel_enabled l) false false) st,
   mkBars false true (toolbar_frame b) (editbar_frame b)).

(** [TableViewDelegate.tableview_did_deselect]. *)
Definition tableview_did_deselect (section row : nat) (st : App V) : App V :=
  let l := lookup_view st in
  match selected_rows l with
  | [] =>
      if editing l then
        with_lookup
          (mkLookupView (selected_rows l) (editing l) (search_text l)
                        (search_segment l) (is_editing l) (cancel_enabled l)
                        false false) st
      else st
  | _ :: _ => st
  end.

(** [SearchDelegate.textfield_did_begin_editing], flag, button and
    frames. *)
Definition textfield_did_begin_editing (s : App V * SearchFrames)
  : App V * SearchFrames :=
  let '(st, f) := s in
  let l := lookup_view st in
  if truthy (search_text l) then
    (with_lookup
       (mkLookupView (selected_rows l) (editing l) (search_text l)
                     (search_segment l) true (cancel_enabled l)
                     (delete_enabled l) (share_multiple_enabled l)) st, f)
  else
    (with_lookup
       (mkLookupView (selected_rows l) (editing l) (search_text l)
                     (search_segment l) true true
                     (delete_enabled l) (share_multiple_enabled l)) st,
     begin_animation f).

(** The frames that [SearchDelegate.textfield_did_end_editing] animates,
    beside the flag and the button [textfield_did_end_editing] assigns. *)
Definition textfield_did_end_editing_frames (st : App V) (f : SearchFrames)
  : SearchFrames :=
  if truthy (search_text (lookup_view st)) then f else end_animation f.

(** The frames [SearchDelegate.textfield_did_change] leaves: it calls
    [textfield_did_end_editing] when the field is not being edited. *)
Definition textfield_did_change_frames (st : App V) (f : SearchFrames)
  : SearchFrames :=
  if negb (is_editing (lookup_view st))
  then textfield_did_end_editing_frames st f else f.

(** The search field as the framework drives it: editing begins only on a
    field that is not being edited, keys reach the field only while it is
    being edited, and the Cancel button can be tapped at any time. *)
Inductive SearchOp : Type :=
| SearchBegin                      (* textfield_did_begin_editing *)
| SearchType (text : string)       (* textfield_did_change *)
| SearchEnd                        (* textfield_did_end_editing *)
| SearchCancel.                    (* action_cancel *)

Definition search_step (o : SearchOp) (s : App V * SearchFrames)
  : App V * SearchFrames :=
  let '(st, f) := s in
  match o with
  | SearchBegin =>
      if is_editing (lookup_view st) then s
      else textfield_did_begin_editing s
  | SearchType text =>
      if is_editing (lookup_view st) then
        let st0 := with_lookup (with_search_text text (lookup_view st)) st in
        (textfield_did_change st0, textfield_did_change_frames st0 f)
      else s
  | SearchEnd =>
      (textfield_did_end_editing st, textfield_did_end_editing_frames st f)
  | SearchCancel =>
      let st0 := with_lookup (with_search_text "" (lookup_view st)) st in
      (action_cancel st, textfield_did_change_frames st0 f)
  end.

Fixpoint search_run (ops : list SearchOp) (s : App V * SearchFrames)
  : App V * SearchFrames :=
  match ops with
  | [] => s
  | o :: rest => search_run rest (search_step o s)
  end.

(** The Cancel button is enabled exactly when the field is being edited
    or holds text; enabled, it sits 6 points inside the right edge with
    the field ending 6 points before it; disabled, it is parked outside
    the right edge and the field spans the view but for 6 points on each
    side. *)
Definition search_bar_ok (s : App V * SearchFrames) : Prop :=
  let l := lookup_view (fst s) in
  let f := snd s in
  cancel_enabled l = is_editing l || truthy (search_text l)
  /\ if cancel_enabled l then
       field_width f = (lookup_width f - 12 - (cancel_width f + 6))%Z
       /\ cancel_x f = (lookup_width f - cancel_width f - 6)%Z
     else
       field_width f = (lookup_width f - 12)%Z
       /\ cancel_x f = (lookup_width f + 6)%Z.

(** Every callback of the lookup screen and the word views: the ones of
    [Op], the edit bar, the search field and the web views. *)
Inductive UiOp : Type :=
| UiScript (o : Op)
| UiStartEditing                            (* start_editing *)
| UiEndEditing                              (* end_editing *)
| UiDeselect (section row : nat)            (* tableview_did_deselect *)
| UiSearch                                  (* action_search *)
| UiCancel                                  (* action_cancel *)
| UiReturn                                  (* textfield_should_return *)
| UiWeb (self : view_id) (url : string) (parsed_url : ParseResult)
        (nav_type : string).                (* webview_should_start_load *)

Definition ui_step (o : UiOp) (s : App V * Bars) : App V * Bars :=
  match o with
  | UiScript o' => (step o' (fst s), snd s)
  | UiStartEditing => start_editing s
  | UiEndEditing => end_editing s
  | UiDeselect section row => (tableview_did_deselect section row (fst s), snd s)
  | UiSearch => (action_search (fst s), snd s)
  | UiCancel => (action_cancel (fst s), snd s)
  | UiReturn => (fst (textfield_should_return (fst s)), snd s)
  | UiWeb self url parsed_url nav_type =>
      (fst (fst (webview_should_start_load self url parsed_url nav_type
                   (fst s))), snd s)
  end.

Fixpoint ui_run (ops : list UiOp) (s : App V * Bars) : App V * Bars :=
  match ops with
  | [] => s
  | o :: rest => ui_run rest (ui_step o s)
  end.

End Callbacks.

(** * Properties *)

(** ** Python values *)

Lemma coord_eqb_eq (a b : coord) : coord_eqb a b = true <-> a = b.
Proof.
  destruct a as [a1 a2], b as [b1 b2]; unfold coord_eqb; simpl.
  rewrite andb_true_iff, !Nat.eqb_eq.
  split; [intros [-> ->]; reflexivity | intros E; inversion E; auto].
Qed.

Lemma coords_eqb_eq (l1 l2 : list coord) : coords_eqb l1 l2 = true <-> l1 = l2.
Proof.
  revert l2; induction l1 as [|a l1 IH]; intros [|b l2]; simpl;
    try (split; [discriminate | discriminate]); try tauto.
  rewrite andb_true_iff, coord_eqb_eq, IH.
  split; [intros [-> ->]; reflexivity | intros E; inversion E; auto].
Qed.

Lemma coords_eqb_refl (l : list coord) : coords_eqb l l = true.
Proof. apply coords_eqb_eq; reflexivity. Qed.

Lemma py_index_nth (x : string) (words : list string) (i : nat) :
  py_index x words = Some i -> nth_error words i = Some x.
Proof.
  revert i; induction words as [|w rest IH]; simpl; intros i; [discriminate|].
  destruct (w =? x) eqn:E.
  - intros [= <-]; apply String.eqb_eq in E; subst; reflexivity.
  - destruct (py_index x rest) as [j|]; [|discriminate].
    intros [= <-]; simpl; apply IH; reflexivity.
Qed.

Lemma py_index_none (x : string) (words : list string) :
  py_index x words = None <-> ~ In x words.
Proof.
  induction words as [|w rest IH]; simpl; [tauto|].
  destruct (w =? x) eqn:E.
  - apply String.eqb_eq in E; split; [discriminate | intros N; elim N; auto].
  - apply String.eqb_neq in E.
    destruct (py_index x rest) as [j|].
    + split; [discriminate|]. intros N; exfalso.
      destruct IH as [_ IH]. 
      assert (C : Some j = None) by (apply IH; tauto). discriminate.
    + split; [|reflexivity]. intros _ [F|F]; [auto|]. apply IH in F; auto.
Qed.

Section ScriptFacts.

Context {V : Type} {vocabulary : Vocabulary V}.

(** ** Selection *)

(** What [select_word] leaves alone. *)
Lemma select_word_frame (self : view_id) (st : App V) :
  vocab (select_word self st) = vocab st
  /\ word_view (select_word self st) = word_view st
  /\ compact_word_view (select_word self st) = compact_word_view st
  /\ container (select_word self st) = container st
  /\ background (select_word self st) = background st.
Proof.
  unfold select_word.
  destruct (py_index _ _); [destruct (negb _)|]; simpl; auto.
Qed.

Lemma select_word_view (self self' : view_id) (st : App V) :
  view self' (select_word self st) = view self' st.
Proof.
  destruct (select_word_frame self st) as (_ & Hw & Hc & _).
  destruct self'; simpl; assumption.
Qed.

(** The coordinate [select_word] computes for the word shown in [self]. *)
Lemma select_word_some (self : view_id) (st : App V) (row : nat) :
  let section := if truthy (textview_text (view self st)) then 0%nat else 1%nat in
  let section' := if truthy (query (vocab st)) then S section else section in
  py_index (word_text (view self st)) (list_words (vocab st) section) = Some row ->
  selected_rows (lookup_view (select_word self st)) = [(section', row)]
  /\ (log (select_word self st) = log st
      \/ log (select_word self st) = log st ++ [SelectRows [(section', row)]]).
Proof.
  intros section section' E. unfold select_word. fold section. rewrite E. fold section'.
  destruct (coords_eqb _ _) eqn:C; simpl.
  - apply coords_eqb_eq in C. auto.
  - auto.
Qed.

(** C4: selection sync compares before it sets.  Running [select_word] a
    second time, nothing having changed in between, changes nothing, so no
    second [SelectRows] reaches the table; the first run sends nothing or one
    [SelectRows], and sends it only where the table's selection differed
    from the computed coordinate. *)
Theorem select_word_idempotent (self : view_id) (st : App V) :
  select_word self (select_word self st) = select_word self st
  /\ log (select_word self (select_word self st)) = log (select_word self st)
  /\ exists sent,
       log (select_word self st) = log st ++ sent
       /\ (length (filter is_select sent) <= 1)%nat
       /\ (sent = []
           \/ exists c,
                sent = [SelectRows [c]]
                /\ selected_rows (lookup_view st) <> [c]
                /\ selected_rows (lookup_view (select_word self st)) = [c]).
Proof.
  assert (I : select_word self (select_word self st) = select_word self st).
  { unfold select_word at 1.
    rewrite (select_word_view self self st).
    destruct (select_word_frame self st) as (Hv & _).
    rewrite Hv.
    destruct (py_index _ _) as [row|] eqn:E; [|reflexivity].
    destruct (select_word_some self st row E) as [S _].
    rewrite S, coords_eqb_refl. reflexivity. }
  split; [exact I|]. split; [rewrite I; reflexivity|].
  unfold select_word.
  destruct (py_index _ _) as [row|];
    [destruct (coords_eqb _ _) eqn:C|]; simpl.
  - exists []; rewrite app_nil_r; repeat split; auto.
  - eexists; split; [reflexivity|]; split; [simpl; lia|].
    right; eexists; split; [reflexivity|]; split; [|reflexivity].
    intros E; rewrite E, coords_eqb_refl in C; discriminate.
  - exists []; rewrite app_nil_r; repeat split; auto.
Qed.

End ScriptFacts.

Section WordViewFacts.

Context {V : Type} {vocabulary : Vocabulary V}.

(** ** Opening a word *)

Lemma view_with_view_same (self : view_id) (w : WordView) (st : App V) :
  view self (with_view self w st) = w.
Proof. destruct self; reflexivity. Qed.

Lemma view_with_view_other (self self' : view_id) (w : WordView) (st : App V) :
  self <> self' -> view self' (with_view self w st) = view self' st.
Proof. destruct self, self'; simpl; congruence. Qed.

Lemma select_word_log (self : view_id) (st : App V) :
  exists sent,
    log (select_word self st) = log st ++ sent
    /\ (length (filter is_select sent) <= 1)%nat.
Proof.
  unfold select_word.
  destruct (py_index _ _) as [row|]; [destruct (negb _)|]; simpl.
  - eexists; split; [reflexivity|]; simpl; lia.
  - exists []; rewrite app_nil_r; split; [reflexivity|]; simpl; lia.
  - exists []; rewrite app_nil_r; split; [reflexivity|]; simpl; lia.
Qed.

(** [load_word] returns at once on the word already shown, unless forced. *)
Lemma load_word_skip (self : view_id) (word : string) (st : App V) :
  word_text (view self st) = word -> load_word self word false st = st.
Proof.
  intros E; unfold load_word; rewrite E, String.eqb_refl; reflexivity.
Qed.

(** Otherwise it fills the view, queues the fetch and ends in
    [select_word]. *)
Lemma load_word_reload (self : view_id) (word : string) (force : bool)
  (st : App V) :
  (word_text (view self st) =? word) && negb force = false ->
  exists st1,
    load_word self word force st = select_word self st1
    /\ word_text (view self st1) = word
    /\ textview_text (view self st1) = get_notes (vocab st) word
    /\ blank_hidden (view self st1) = true
    /\ share_enabled (view self st1) = true
    /\ (forall self', self <> self' -> view self' st1 = view self' st)
    /\ vocab st1 = vocab st
    /\ lookup_view st1 = lookup_view st
    /\ container st1 = container st
    /\ background st1 = background st ++ [(self, word)]
    /\ log st1 = log st.
Proof.
  intros E; unfold load_word; rewrite E.
  eexists; split; [reflexivity|].
  destruct self; simpl;
    destruct (truthy (get_notes (vocab st) word)); simpl;
    repeat split; auto; intros [] N; simpl; congruence.
Qed.

Lemma load_word_frame (self : view_id) (word : string) (force : bool)
  (st : App V) :
  vocab (load_word self word force st) = vocab st
  /\ container (load_word self word force st) = container st
  /\ word_text (view self (load_word self word force st)) = word
  /\ (forall self', self <> self' ->
        view self' (load_word self word force st) = view self' st).
Proof.
  destruct ((word_text (view self st) =? word) && negb force) eqn:E.
  - unfold load_word; rewrite E.
    apply andb_true_iff in E; destruct E as [E _].
    apply String.eqb_eq in E; auto.
  - destruct (load_word_reload self word force st E)
      as (st1 & -> & Hw & _ & _ & _ & Ho & Hv & _ & Hc & _).
    destruct (select_word_frame self st1) as (Sv & _ & _ & Sc & _).
    rewrite Sv, Sc, !select_word_view. repeat split; auto.
    intros self' N; rewrite select_word_view; auto.
Qed.

(** C3 (as the script has it): [select_word] takes the section from the
    notes shown (0 with notes, 1 without), one further with a query typed,
    and the row from the position of the shown word in that section's list.
    When the word is listed, the table's selection becomes that coordinate;
    when it is not, nothing changes and the selection stays as it was.  It
    runs at the end of every [load_word] that does not return early. *)
Theorem select_word_sync (self : view_id) (st : App V) :
  let w := view self st in
  let section := if truthy (textview_text w) then 0%nat else 1%nat in
  let section' := if truthy (query (vocab st)) then S section else section in
  match py_index (word_text w) (list_words (vocab st) section) with
  | Some row =>
      nth_error (list_words (vocab st) section) row = Some (word_text w)
      /\ selected_rows (lookup_view (select_word self st)) = [(section', row)]
  | None =>
      ~ In (word_text w) (list_words (vocab st) section)
      /\ select_word self st = st
  end
  /\ forall word force,
       load_word self word force st = st
       \/ exists st1,
            load_word self word force st = select_word self st1
            /\ word_text (view self st1) = word
            /\ vocab st1 = vocab st
            /\ lookup_view st1 = lookup_view st.
Proof.
  intros w section section'. split.
  - destruct (py_index _ _) as [row|] eqn:E.
    + split; [apply py_index_nth; exact E|].
      apply (select_word_some self st row E).
    + split; [apply py_index_none; exact E|].
      unfold select_word. fold w. fold section. rewrite E. reflexivity.
  - intros word force.
    destruct ((word_text (view self st) =? word) && negb force) eqn:E.
    + left; unfold load_word; rewrite E; reflexivity.
    + right.
      destruct (load_word_reload self word force st E)
        as (st1 & L & Hw & _ & _ & _ & _ & Hv & Hl & _).
      exists st1; auto.
Qed.

(** C8: [load_word_view] leaves [open_words] holding the one word.  In
    regular mode the right-hand view is loaded in place and nothing is
    pushed; the load is skipped when the word is the one shown.  In any
    other mode the compact view is loaded and pushed on the navigation
    view.  A forced [load_word] reloads even the word shown. *)
Theorem load_word_view_opens (word : string) (st : App V) :
  let st' := load_word_view word st in
  open_words (container st') = [word]
  /\ (if (size_class (container st) =? REGULAR)%Z then
        nav_pushed (container st') = nav_pushed (container st)
        /\ compact_word_view st' = compact_word_view st
        /\ word_text (word_view st') = word
        /\ (if word_text (word_view st) =? word then
              word_view st' = word_view st
              /\ lookup_view st' = lookup_view st
              /\ background st' = background st
              /\ log st' = log st
            else
              textview_text (word_view st') = get_notes (vocab st) word
              /\ blank_hidden (word_view st') = true
              /\ background st' = background st ++ [(WordViewR, word)])
      else
        nav_pushed (container st') = WordViewC :: nav_pushed (container st)
        /\ word_view st' = word_view st
        /\ word_text (compact_word_view st') = word
        /\ exists sent, log st' = log st ++ sent ++ [PushView WordViewC true])
  /\ forall self,
       word_text (view self (load_word self word true st)) = word
       /\ textview_text (view self (load_word self word true st))
          = get_notes (vocab st) word
       /\ background (load_word self word true st)
          = background st ++ [(self, word)].
Proof.
  intros st'. split; [|split].
  - unfold st', load_word_view; reflexivity.
  - unfold st', load_word_view.
    destruct (size_class (container st) =? REGULAR)%Z.
    + destruct (load_word_frame WordViewR word false st) as (_ & Hc & Hw & Ho).
      simpl; rewrite Hc.
      split; [reflexivity|]. split; [apply (Ho WordViewC); discriminate|].
      split; [exact Hw|].
      destruct (word_text (word_view st) =? word) eqn:E.
      * apply String.eqb_eq in E.
        rewrite (load_word_skip WordViewR word st E); auto.
      * assert (E' : (word_text (view WordViewR st) =? word) && negb false = false)
          by (simpl; rewrite E; reflexivity).
        destruct (load_word_reload WordViewR word false st E')
          as (st1 & -> & _ & Hn & Hb & _ & _ & _ & _ & _ & Hq & _).
        destruct (select_word_frame WordViewR st1) as (_ & Sw & _ & _ & Sb).
        rewrite Sw, Sb. simpl in Hn, Hb. auto.
    + destruct (load_word_frame WordViewC word false st) as (_ & Hc & Hw & Ho).
      simpl; rewrite Hc.
      split; [reflexivity|]. split; [apply (Ho WordViewR); discriminate|].
      split; [exact Hw|].
      destruct ((word_text (view WordViewC st) =? word) && negb false) eqn:E.
      * unfold load_word; rewrite E. exists []; reflexivity.
      * destruct (load_word_reload WordViewC word false st E)
          as (st1 & -> & _ & _ & _ & _ & _ & _ & _ & _ & _ & Hl).
        destruct (select_word_log WordViewC st1) as (sent & -> & _).
        exists sent; rewrite Hl, app_assoc; reflexivity.
  - intros self.
    destruct (load_word_reload self word true st) as
      (st1 & -> & Hw & Hn & _ & _ & _ & _ & _ & _ & Hq & _);
      [apply andb_false_r|].
    destruct (select_word_frame self st1) as (_ & _ & _ & _ & Sb).
    rewrite !select_word_view, Sb; auto.
Qed.

End WordViewFacts.

Section RowFacts.

Context {V : Type} {vocabulary : Vocabulary V}.

(** ** Fetched definitions and row mutations *)

Lemma clear_frame (self : view_id) (st : App V) :
  vocab (clear self st) = vocab st
  /\ lookup_view (clear self st) = lookup_view st
  /\ background (clear self st) = background st
  /\ log (clear self st) = log st
  /\ open_words (container (clear self st)) = []
  /\ nav_pushed (container (clear self st)) = nav_pushed (container st)
  /\ last_layout (container (clear self st)) = last_layout (container st)
  /\ size_class (container (clear self st)) = size_class (container st).
Proof. destruct self; unfold clear; simpl; repeat split. Qed.

Lemma clear_deleted_frame (words : list string) (st : App V) :
  vocab (clear_deleted words st) = vocab st
  /\ lookup_view (clear_deleted words st) = lookup_view st
  /\ background (clear_deleted words st) = background st
  /\ log (clear_deleted words st) = log st
  /\ (open_words (container (clear_deleted words st)) = []
      \/ open_words (container (clear_deleted words st))
         = open_words (container st))
  /\ nav_pushed (container (clear_deleted words st)) = nav_pushed (container st)
  /\ last_layout (container (clear_deleted words st))
     = last_layout (container st)
  /\ size_class (container (clear_deleted words st))
     = size_class (container st).
Proof.
  revert st; induction words as [|word rest IH]; intros st; simpl.
  - repeat split; auto.
  - destruct (word_text (word_view st) =? word).
    + destruct (IH (clear WordViewR st)) as (a & b & c & d & e & f & g & h).
      destruct (clear_frame WordViewR st) as (a' & b' & c' & d' & e' & f' & g' & h').
      rewrite a, b, c, d, f, g, h. repeat split; auto.
      destruct e as [e|e]; [left; exact e | left; rewrite e; exact e'].
    + apply IH.
Qed.

Lemma load_definition_frame (self : view_id) (word : string)
  (d : DefineResult) (st : App V) :
  container (load_definition self word d st) = container st
  /\ lookup_view (load_definition self word d st) = lookup_view st
  /\ background (load_definition self word d st) = background st
  /\ exists sent,
       log (load_definition self word d st) = log st ++ sent
       /\ (sent = []
           \/ exists v r,
                set_word (vocab st) word "" = (v, Some r)
                /\ sent = [InsertRows [r]]).
Proof.
  unfold load_definition.
  assert (Hv : forall w, vocab (with_view self w st) = vocab st)
    by (destruct self; reflexivity).
  rewrite Hv.
  destruct (definitions d) as [|x xs];
    [|destruct (truthy (get_notes (vocab st) word)); simpl;
      [|destruct (set_word (vocab st) word "") as [v' [r|]] eqn:E]];
    destruct self; simpl; repeat split;
    try (exists []; rewrite app_nil_r; split; [reflexivity | left; reflexivity]).
  all: eexists; split; [reflexivity|]; right; exists v', r; auto.
Qed.

(** C2 (as the script has it): when the fetch for a word returns, the
    rendered result is loaded into the web view of the view that asked,
    whatever word that view shows by then; the word label and the notes
    are not consulted and not changed.  The word is saved to the history,
    and the row the store reports inserted, exactly when the result has
    definitions and the store has no notes for the word. *)
Theorem load_definition_unconditional (self : view_id) (word : string)
  (d : DefineResult) (st : App V) :
  let st' := load_definition self word d st in
  let saves :=
    match definitions d with [] => false | _ :: _ => true end
    && negb (truthy (get_notes (vocab st) word)) in
  html_definition (view self st') = HtmlDefinition d
  /\ word_text (view self st') = word_text (view self st)
  /\ textview_text (view self st') = textview_text (view self st)
  /\ vocab st'
     = (if saves then fst (set_word (vocab st) word "") else vocab st)
  /\ log st'
     = log st ++ (if saves then
                    match snd (set_word (vocab st) word "") with
                    | Some r => [InsertRows [r]]
                    | None => []
                    end
                  else []).
Proof.
  unfold load_definition.
  assert (Hv : forall w, vocab (with_view self w st) = vocab st)
    by (destruct self; reflexivity).
  assert (Hl : forall w, log (with_view self w st) = log st)
    by (destruct self; reflexivity).
  destruct (definitions d) as [|x xs]; simpl.
  - rewrite view_with_view_same, Hv, Hl, app_nil_r; simpl; auto.
  - rewrite Hv.
    destruct (truthy (get_notes (vocab st) word)); simpl.
    + rewrite view_with_view_same, Hv, Hl, app_nil_r; simpl; auto.
    + destruct (set_word (vocab st) word "") as [v' [r|]]; simpl;
        destruct self; simpl; rewrite ?app_nil_r; auto.
Qed.

(** The rows the script sends to the table view reach it in two
    ways.  [action_delete] reads (section, row) tuples from the table's own
    selection and turns each one around before [delete_rows].  The note
    delegate and the fetch pass the row that [set_word] and [del_dup_word]
    returned to [insert_rows] and [delete_rows] as it is. *)
Theorem rows_sent_to_table (st : App V) :
  log (action_delete st)
  = log st ++ [DeleteRows (map backwards (selected_rows (lookup_view st)));
               HudAlert (length (selected_rows (lookup_view st)))]
  /\ (forall self,
        let word := word_text (view self st) in
        let notes := textview_text (view self st) in
        let written := set_word (vocab st) word notes in
        log (textview_did_end_editing self st)
        = log st
          ++ match snd written with
             | Some r => [InsertRows [r]]
             | None => []
             end
          ++ match snd (del_dup_word (fst written) word notes) with
             | Some r => [DeleteRows [r]]
             | None => []
             end)
  /\ (forall self word d,
        exists sent,
          log (load_definition self word d st) = log st ++ sent
          /\ (sent = []
              \/ exists v r,
                   set_word (vocab st) word "" = (v, Some r)
                   /\ sent = [InsertRows [r]])).
Proof.
  split; [|split].
  - unfold action_delete.
    destruct (delete_multiple (vocab st) (selected_rows (lookup_view st)))
      as [v' words].
    destruct (clear_deleted_frame words
                (emit (DeleteRows (map backwards (selected_rows (lookup_view st))))
                      (with_vocab v' st))) as (_ & _ & _ & Hl & _).
    simpl; rewrite Hl; simpl. rewrite <- app_assoc; reflexivity.
  - intros self word notes written. unfold textview_did_end_editing.
    fold word. fold notes. fold written.
    destruct written as [v1 [r|]]; simpl;
      destruct (del_dup_word v1 word notes) as [v2 [r'|]]; simpl;
      rewrite ?app_nil_r, <- ?app_assoc; reflexivity.
  - intros self word d.
    destruct (load_definition_frame self word d st) as (_ & _ & _ & sent & L & S).
    exists sent; auto.
Qed.

End RowFacts.

Lemma last_cons {A : Type} (a d : A) (l : list A) :
  last (a :: l) d = last l a.
Proof.
  revert a d; induction l as [|b l IH]; intros a d; [reflexivity|].
  change (last (a :: b :: l) d) with (last (b :: l) d).
  rewrite !IH. reflexivity.
Qed.

Section LayoutFacts.

Context {V : Type} {vocabulary : Vocabulary V}.

(** ** Layout *)

Lemma push_view_frame (v : view_id) (animated : bool) (st : App V) :
  vocab (push_view v animated st) = vocab st
  /\ word_view (push_view v animated st) = word_view st
  /\ compact_word_view (push_view v animated st) = compact_word_view st
  /\ open_words (container (push_view v animated st))
     = open_words (container st)
  /\ last_layout (container (push_view v animated st))
     = last_layout (container st)
  /\ size_class (container (push_view v animated st))
     = size_class (container st)
  /\ nav_pushed (container (push_view v animated st))
     = v :: nav_pushed (container st).
Proof. unfold push_view; simpl; repeat split. Qed.

(** The loop of [set_compact]: one push per open word, the compact view
    left showing the last of them. *)
Lemma push_open_words_frame (words : list string) (st : App V) :
  vocab (push_open_words words st) = vocab st
  /\ word_view (push_open_words words st) = word_view st
  /\ open_words (container (push_open_words words st))
     = open_words (container st)
  /\ last_layout (container (push_open_words words st))
     = last_layout (container st)
  /\ size_class (container (push_open_words words st))
     = size_class (container st)
  /\ nav_pushed (container (push_open_words words st))
     = repeat WordViewC (length words) ++ nav_pushed (container st)
  /\ word_text (compact_word_view (push_open_words words st))
     = last words (word_text (compact_word_view st)).
Proof.
  revert st; induction words as [|word rest IH]; intros st.
  - simpl; repeat split.
  - cbn [push_open_words].
    destruct (IH (push_view WordViewC false (load_word WordViewC word false st)))
      as (a & b & c & d & e & f & g).
    destruct (push_view_frame WordViewC false (load_word WordViewC word false st))
      as (a' & b' & c' & d' & e' & f' & g').
    destruct (load_word_frame WordViewC word false st) as (Lv & Lc & Lw & Lo).
    rewrite a, b, c, d, e, f, g, a', b', c', d', e', f', g', Lv, Lc.
    repeat split.
    + apply (Lo WordViewR); discriminate.
    + change (WordViewC :: nav_pushed (container st)) 
        with ([WordViewC] ++ nav_pushed (container st)).
      rewrite app_assoc. f_equal.
      change (length (word :: rest)) with (S (length rest)).
      rewrite <- repeat_cons. reflexivity.
    + simpl in Lw. rewrite Lw, last_cons. reflexivity.
Qed.

Lemma pop_view_frame (animated : bool) (st : App V) :
  vocab (pop_view animated st) = vocab st
  /\ word_view (pop_view animated st) = word_view st
  /\ compact_word_view (pop_view animated st) = compact_word_view st
  /\ open_words (container (pop_view animated st))
     = open_words (container st)
  /\ last_layout (container (pop_view animated st))
     = last_layout (container st)
  /\ size_class (container (pop_view animated st))
     = size_class (container st)
  /\ nav_pushed (container (pop_view animated st))
     = tl (nav_pushed (container st)).
Proof. unfold pop_view; simpl; repeat split. Qed.

(** The loop of [set_regular]: one pop per open word, the right-hand view
    left showing the last of them. *)
Lemma pop_open_words_frame (words : list string) (st : App V) :
  vocab (pop_open_words words st) = vocab st
  /\ compact_word_view (pop_open_words words st) = compact_word_view st
  /\ open_words (container (pop_open_words words st))
     = open_words (container st)
  /\ last_layout (container (pop_open_words words st))
     = last_layout (container st)
  /\ size_class (container (pop_open_words words st))
     = size_class (container st)
  /\ nav_pushed (container (pop_open_words words st))
     = skipn (length words) (nav_pushed (container st))
  /\ word_text (word_view (pop_open_words words st))
     = last words (word_text (word_view st)).
Proof.
  revert st; induction words as [|word rest IH]; intros st.
  - simpl; repeat split.
  - cbn [pop_open_words].
    destruct (IH (load_word WordViewR word false (pop_view false st)))
      as (a & b & c & d & e & f & g).
    destruct (load_word_frame WordViewR word false (pop_view false st))
      as (Lv & Lc & Lw & Lo).
    destruct (pop_view_frame false st) as (a' & b' & c' & d' & e' & f' & g').
    rewrite a, b, c, d, e, f, g, Lv, Lc, a', d', e', f', g'.
    repeat split.
    + rewrite <- c'. apply (Lo WordViewC); discriminate.
    + destruct (nav_pushed (container st)); simpl;
        [rewrite skipn_nil|]; reflexivity.
    + simpl in Lw. rewrite Lw, last_cons. reflexivity.
Qed.

Lemma set_regular_frame (st : App V) :
  vocab (set_regular st) = vocab st
  /\ compact_word_view (set_regular st) = compact_word_view st
  /\ open_words (container (set_regular st)) = open_words (container st)
  /\ last_layout (container (set_regular st)) = Some REGULAR
  /\ size_class (container (set_regular st)) = size_class (container st)
  /\ nav_pushed (container (set_regular st))
     = (if last_layout_is COMPACT (container st)
        then skipn (length (open_words (container st)))
                   (nav_pushed (container st))
        else nav_pushed (container st))
  /\ word_text (word_view (set_regular st))
     = (if last_layout_is COMPACT (container st)
        then last (open_words (container st)) (word_text (word_view st))
        else word_text (word_view st)).
Proof.
  unfold set_regular.
  change (last_layout_is COMPACT
            (container (with_container (regular_frames (container st)) st)))
    with (last_layout_is COMPACT (container st)).
  destruct (last_layout_is COMPACT (container st)).
  - destruct (pop_open_words_frame
                (open_words (container
                   (with_container (regular_frames (container st)) st)))
                (with_container (regular_frames (container st)) st))
      as (a & b & c & d & e & f & g).
    simpl in a, b, c, e, f, g |- *. rewrite a, b, c, e, f, g. repeat split.
  - simpl; repeat split.
Qed.

Lemma set_compact_frame (st : App V) :
  vocab (set_compact st) = vocab st
  /\ word_view (set_compact st) = word_view st
  /\ open_words (container (set_compact st)) = open_words (container st)
  /\ last_layout (container (set_compact st)) = Some COMPACT
  /\ size_class (container (set_compact st)) = size_class (container st)
  /\ nav_pushed (container (set_compact st))
     = repeat WordViewC (length (open_words (container st)))
       ++ nav_pushed (container st)
  /\ word_text (compact_word_view (set_compact st))
     = last (open_words (container st)) (word_text (compact_word_view st)).
Proof.
  unfold set_compact.
  destruct (push_open_words_frame
              (open_words (container
                 (with_container (compact_frames (container st)) st)))
              (with_container (compact_frames (container st)) st))
    as (a & b & c & d & e & f & g).
  simpl in a, b, c, e, f, g |- *. rewrite a, b, c, e, f, g. repeat split.
Qed.

(** [layout] by cases on the size class reported and the layout last
    applied. *)
Lemma layout_cases (st : App V) :
  (size_class (container st) = REGULAR
   /\ last_layout_is REGULAR (container st) = false
   /\ layout st = set_regular st)
  \/ (size_class (container st) = COMPACT
      /\ last_layout_is COMPACT (container st) = false
      /\ layout st = set_compact st)
  \/ (layout st = st
      /\ (size_class (container st) = REGULAR ->
          last_layout_is REGULAR (container st) = true)
      /\ (size_class (container st) = COMPACT ->
          last_layout_is COMPACT (container st) = true)).
Proof.
  unfold layout.
  destruct (size_class (container st) =? REGULAR)%Z eqn:ER.
  - apply Z.eqb_eq in ER.
    assert (EC : (size_class (container st) =? COMPACT)%Z = false)
      by (rewrite ER; reflexivity).
    rewrite EC.
    destruct (last_layout_is REGULAR (container st)) eqn:L; simpl.
    + right; right; split; [reflexivity|]; split; [auto|].
      intros C; rewrite ER in C; discriminate.
    + left; auto.
  - simpl. apply Z.eqb_neq in ER.
    destruct (size_class (container st) =? COMPACT)%Z eqn:EC.
    + apply Z.eqb_eq in EC.
      destruct (last_layout_is COMPACT (container st)) eqn:L; simpl.
      * right; right; split; [reflexivity|]; split; [|auto].
        intros C; rewrite EC in C; discriminate.
      * right; left; auto.
    + apply Z.eqb_neq in EC. right; right; split; [reflexivity|]; tauto.
Qed.

Lemma layout_frame (st : App V) :
  vocab (layout st) = vocab st
  /\ open_words (container (layout st)) = open_words (container st)
  /\ size_class (container (layout st)) = size_class (container st).
Proof.
  destruct (layout_cases st) as [(_ & _ & ->)|[(_ & _ & ->)|(-> & _)]].
  - destruct (set_regular_frame st) as (a & _ & c & _ & e & _); auto.
  - destruct (set_compact_frame st) as (a & _ & c & _ & e & _); auto.
  - auto.
Qed.

(** C7: a second layout notification carrying the same size class changes
    nothing: [layout] applies a transition only where the size class
    differs from [last_layout], which the transition then sets. *)
Theorem layout_idempotent (m : Z) (st : App V) :
  layout (layout st) = layout st
  /\ (if last_layout_is (size_class (container st)) (container st)
      then layout st = st
      else last_layout (container st) <> Some (size_class (container st)))
  /\ layout_changed m (layout_changed m st) = layout_changed m st
  /\ log (layout_changed m (layout_changed m st)) = log (layout_changed m st)
  /\ container (layout_changed m (layout_changed m st))
     = container (layout_changed m st).
Proof.
  assert (I : forall s : App V, layout (layout s) = layout s).
  { intros s.
    destruct (layout_cases s) as [(S & L & E)|[(S & L & E)|(E & _)]].
    - rewrite E.
      destruct (set_regular_frame s) as (_ & _ & _ & Hl & Hs & _).
      assert (T : last_layout_is REGULAR (container (set_regular s)) = true)
        by (unfold last_layout_is; rewrite Hl; reflexivity).
      unfold layout. rewrite Hs, S, T. reflexivity.
    - rewrite E.
      destruct (set_compact_frame s) as (_ & _ & _ & Hl & Hs & _).
      assert (T : last_layout_is COMPACT (container (set_compact s)) = true)
        by (unfold last_layout_is; rewrite Hl; reflexivity).
      unfold layout. rewrite Hs, S.
      change (COMPACT =? REGULAR)%Z with false. cbn [andb].
      rewrite T. reflexivity.
    - rewrite !E; reflexivity. }
  assert (J : layout_changed m (layout_changed m st) = layout_changed m st).
  { unfold layout_changed at 1.
    assert (S : with_container
                  (with_size_class m (container (layout_changed m st)))
                  (layout_changed m st) = layout_changed m st).
    { destruct (layout_frame
                  (with_container (with_size_class m (container st)) st))
        as (_ & _ & Hs).
      fold (layout_changed m st) in Hs. simpl in Hs.
      destruct (layout_changed m st) as [v wv cv lv c b l]; simpl in *.
      destruct c; simpl in *; subst; reflexivity. }
    rewrite S. apply I. }
  split; [apply I|]. split; [|split; [exact J|rewrite J; split; reflexivity]].
  destruct (last_layout_is (size_class (container st)) (container st)) eqn:L.
  - destruct (layout_cases st) as [(S & F & _)|[(S & F & _)|(E & _)]];
      [rewrite S in L; congruence | rewrite S in L; congruence | exact E].
  - unfold last_layout_is in L. intros E; rewrite E, Z.eqb_refl in L.
    discriminate.
Qed.

End LayoutFacts.

Section RoundTrip.

Context {V : Type} {vocabulary : Vocabulary V}.

(** The loops leave the content column shown or hidden as the frame
    assignments before them set it. *)
Lemma pop_open_words_hidden (words : list string) (st : App V) :
  content_hidden (container (pop_open_words words st))
  = content_hidden (container st).
Proof.
  revert st; induction words as [|word rest IH]; intros st; [reflexivity|].
  cbn [pop_open_words]. rewrite IH.
  destruct (load_word_frame WordViewR word false (pop_view false st))
    as (_ & -> & _).
  reflexivity.
Qed.

Lemma push_open_words_hidden (words : list string) (st : App V) :
  content_hidden (container (push_open_words words st))
  = content_hidden (container st).
Proof.
  revert st; induction words as [|word rest IH]; intros st; [reflexivity|].
  cbn [push_open_words]. rewrite IH.
  destruct (load_word_frame WordViewC word false st) as (_ & E & _).
  cbn [push_view emit with_container container with_nav_pushed content_hidden].
  rewrite E. reflexivity.
Qed.

Lemma set_regular_shows_content (st : App V) :
  content_hidden (container (set_regular st)) = false.
Proof.
  unfold set_regular.
  cbn [with_container container with_last_layout content_hidden].
  destruct (last_layout_is COMPACT _); [rewrite pop_open_words_hidden|];
    reflexivity.
Qed.

Lemma set_compact_hides_content (st : App V) :
  content_hidden (container (set_compact st)) = true.
Proof.
  unfold set_compact.
  cbn [with_container container with_last_layout content_hidden].
  rewrite push_open_words_hidden. reflexivity.
Qed.

(** The transition the framework triggers when the size class becomes
    regular after compact was applied, and back. *)
Lemma to_regular (st : App V) :
  last_layout (container st) = Some COMPACT ->
  layout_changed REGULAR st
  = set_regular (with_container (with_size_class REGULAR (container st)) st).
Proof.
  intros L. unfold layout_changed.
  destruct (layout_cases
              (with_container (with_size_class REGULAR (container st)) st))
    as [(_ & _ & E)|[(S & _)|(_ & R & _)]].
  - exact E.
  - simpl in S; discriminate.
  - unfold last_layout_is in R; simpl in R. rewrite L in R.
    specialize (R eq_refl). discriminate.
Qed.

Lemma to_compact (st : App V) :
  last_layout (container st) = Some REGULAR ->
  layout_changed COMPACT st
  = set_compact (with_container (with_size_class COMPACT (container st)) st).
Proof.
  intros L. unfold layout_changed.
  destruct (layout_cases
              (with_container (with_size_class COMPACT (container st)) st))
    as [(S & _)|[(_ & _ & E)|(_ & _ & C)]].
  - simpl in S; discriminate.
  - exact E.
  - unfold last_layout_is in C; simpl in C. rewrite L in C.
    specialize (C eq_refl). discriminate.
Qed.

(** C5: a word opened in compact mode, from the list, stays in focus across
    the layouts.  Opening pushes the compact view; the change to regular
    pops it and shows the word in the right-hand view; the change back to
    compact pushes the compact view, showing the word, on the emptied
    navigation view, [open_words] holding the word throughout.  In general
    the change from compact to regular pops once per open word and leaves
    the right-hand view on the last of them. *)
Theorem layout_round_trip (word : string) (st : App V) :
  size_class (container st) = COMPACT ->
  last_layout (container st) = Some COMPACT ->
  nav_pushed (container st) = [] ->
  let st1 := load_word_view word st in
  let st2 := layout_changed REGULAR st1 in
  let st3 := layout_changed COMPACT st2 in
  (nav_pushed (container st1) = [WordViewC]
   /\ word_text (compact_word_view st1) = word
   /\ open_words (container st1) = [word])
  /\ (nav_pushed (container st2) = []
      /\ word_text (word_view st2) = word
      /\ content_hidden (container st2) = false
      /\ open_words (container st2) = [word]
      /\ last_layout (container st2) = Some REGULAR)
  /\ (nav_pushed (container st3) = [WordViewC]
      /\ map (fun v => word_text (view v st3)) (nav_pushed (container st3))
         = [word]
      /\ content_hidden (container st3) = true
      /\ open_words (container st3) = [word]
      /\ last_layout (container st3) = Some COMPACT)
  /\ forall s : App V,
       if last_layout_is COMPACT (container s) then
         nav_pushed (container (set_regular s))
         = skipn (length (open_words (container s)))
                 (nav_pushed (container s))
         /\ word_text (word_view (set_regular s))
            = last (open_words (container s)) (word_text (word_view s))
       else
         nav_pushed (container (set_regular s)) = nav_pushed (container s)
         /\ word_text (word_view (set_regular s)) = word_text (word_view s).
Proof.
  intros S L N st1 st2 st3.
  assert (F1 : nav_pushed (container st1) = [WordViewC]
               /\ word_text (compact_word_view st1) = word
               /\ open_words (container st1) = [word]
               /\ last_layout (container st1) = Some COMPACT).
  { unfold st1, load_word_view. rewrite S.
    change (COMPACT =? REGULAR)%Z with false. cbv iota.
    destruct (load_word_frame WordViewC word false st) as (_ & Hc & Hw & _).
    simpl. rewrite Hc, N, L. simpl in Hw. auto. }
  destruct F1 as (N1 & W1 & O1 & L1). clearbody st1.
  assert (H2 : content_hidden (container st2) = false).
  { unfold st2. rewrite (to_regular st1 L1). apply set_regular_shows_content. }
  assert (F2 : nav_pushed (container st2) = []
               /\ word_text (word_view st2) = word
               /\ open_words (container st2) = [word]
               /\ last_layout (container st2) = Some REGULAR
               /\ word_text (compact_word_view st2) = word).
  { unfold st2. rewrite (to_regular st1 L1).
    destruct (set_regular_frame
                (with_container (with_size_class REGULAR (container st1)) st1))
      as (_ & Hc & Ho & Hl & _ & Hn & Hw).
    rewrite Hc, Ho, Hl, Hn, Hw.
    unfold last_layout_is. simpl. rewrite L1, O1, N1. simpl. auto. }
  destruct F2 as (N2 & W2 & O2 & L2 & C2). clearbody st2.
  assert (F3 : nav_pushed (container st3) = [WordViewC]
               /\ word_text (compact_word_view st3) = word
               /\ open_words (container st3) = [word]
               /\ last_layout (container st3) = Some COMPACT
               /\ content_hidden (container st3) = true).
  { unfold st3. rewrite (to_compact st2 L2).
    rewrite set_compact_hides_content.
    destruct (set_compact_frame
                (with_container (with_size_class COMPACT (container st2)) st2))
      as (_ & _ & Ho & Hl & _ & Hn & Hw).
    rewrite Ho, Hl, Hn, Hw. simpl. rewrite O2, N2. simpl. auto. }
  destruct F3 as (N3 & W3 & O3 & L3 & H3). clearbody st3.
  split; [auto|]. split; [repeat split; auto|]. split.
  - rewrite N3. simpl. rewrite W3. repeat split; auto.
  - intros s.
    destruct (set_regular_frame s) as (_ & _ & _ & _ & _ & Hn & Hw).
    rewrite Hn, Hw. destruct (last_layout_is COMPACT (container s)); auto.
Qed.

End RoundTrip.

Section OpenWords.

Context {V : Type} {vocabulary : Vocabulary V}.

(** ** The open words *)

Lemma textview_did_end_editing_frame (self : view_id) (st : App V) :
  container (textview_did_end_editing self st) = container st
  /\ word_view (textview_did_end_editing self st) = word_view st
  /\ compact_word_view (textview_did_end_editing self st)
     = compact_word_view st
  /\ vocab (textview_did_end_editing self st)
     = fst (del_dup_word
              (fst (set_word (vocab st) (word_text (view self st))
                             (textview_text (view self st))))
              (word_text (view self st)) (textview_text (view self st))).
Proof.
  unfold textview_did_end_editing.
  destruct (set_word _ _ _) as [v1 [r|]]; simpl;
    destruct (del_dup_word v1 _ _) as [v2 [r'|]]; simpl; auto.
Qed.

Lemma action_delete_open_words (st : App V) :
  open_words (container (action_delete st)) = []
  \/ open_words (container (action_delete st)) = open_words (container st).
Proof.
  unfold action_delete.
  destruct (delete_multiple _ _) as [v' words].
  destruct (clear_deleted_frame words
              (emit (DeleteRows (map backwards (selected_rows (lookup_view st))))
                    (with_vocab v' st))) as (_ & _ & _ & _ & Ho & _).
  simpl in *. exact Ho.
Qed.

Lemma textfield_did_change_container (st : App V) :
  container (textfield_did_change st) = container st.
Proof.
  unfold textfield_did_change, action_switch_search, textfield_did_end_editing.
  destruct (negb (find _ _ =? -1)%Z); simpl;
    destruct (negb (is_editing (lookup_view st))); reflexivity.
Qed.

(** One callback leaves [open_words] as it was, empties it, or leaves one
    word in it. *)
Lemma step_open_words (o : Op) (st : App V) :
  open_words (container (step o st)) = open_words (container st)
  \/ open_words (container (step o st)) = []
  \/ exists word, open_words (container (step o st)) = [word].
Proof.
  destruct o as [word|section row|self word|self|d|self notes| |m|text|i];
    cbn [step].
  - right; right; exists word; reflexivity.
  - unfold tableview_did_select.
    destruct (editing (lookup_view st)); [left; reflexivity|].
    destruct (tableview_cell_for_row _ _ _) as [text|];
      [right; right; exists text; reflexivity | left; reflexivity].
  - left; unfold link_word.
    destruct (load_word_frame self word false st) as (_ & -> & _); reflexivity.
  - left; unfold link_change_key.
    destruct (load_word_frame self (word_text (view self st)) true st)
      as (_ & -> & _); reflexivity.
  - left; unfold run_background.
    destruct (background st) as [|[self word] rest]; [reflexivity|].
    destruct (load_definition_frame self word d (with_background rest st))
      as (-> & _); reflexivity.
  - left; unfold notes_edited.
    destruct (textview_did_end_editing_frame self
                (with_view self (with_textview_text notes (view self st)) st))
      as (-> & _).
    destruct self; reflexivity.
  - destruct (action_delete_open_words st) as [E|E]; auto.
  - left; unfold layout_changed.
    destruct (layout_frame
                (with_container (with_size_class m (container st)) st))
      as (_ & -> & _); reflexivity.
  - left; unfold query_typed. rewrite textfield_did_change_container.
    reflexivity.
  - left; reflexivity.
Qed.

Lemma run_open_words (ops : list Op) (st : App V) :
  (length (open_words (container st)) <= 1)%nat ->
  (length (open_words (container (run ops st))) <= 1)%nat.
Proof.
  revert st; induction ops as [|o rest IH]; intros st Hst; [exact Hst|].
  simpl; apply IH.
  destruct (step_open_words o st) as [E|[E|[word E]]]; rewrite E; simpl; lia.
Qed.

(** C10: [open_words] never holds more than one word.  [load_word_view]
    assigns the one-element list in either layout, [clear] assigns the empty
    list, every callback leaves the list as it was, empty, or with one word,
    and so every run of the script from [AdaptiveView.__init__] keeps it at
    one word at most. *)
Theorem open_words_at_most_one :
  (forall word (st : App V),
     open_words (container (load_word_view word st)) = [word])
  /\ (forall self (st : App V), open_words (container (clear self st)) = [])
  /\ (forall o (st : App V),
        open_words (container (step o st)) = open_words (container st)
        \/ open_words (container (step o st)) = []
        \/ exists word, open_words (container (step o st)) = [word])
  /\ (forall ops (st : App V),
        (length (open_words (container (run ops (restarted st)))) <= 1)%nat).
Proof.
  split; [reflexivity|]. split; [intros [] st; reflexivity|].
  split; [apply step_open_words|].
  intros ops st. apply run_open_words. simpl. lia.
Qed.

End OpenWords.

(** ** Search *)

Lemma prefix_empty (s : string) : String.prefix "" s = true.
Proof. destruct s; reflexivity. Qed.

(** [find] of a one-character string against the character's occurrence. *)
Lemma find_from_char (c : ascii) (text : string) (i : Z) :
  (0 <= i)%Z ->
  (find_from text (String c "") i =? -1)%Z = negb (occurs c text).
Proof.
  revert i; induction text as [|a rest IH]; intros i Hi; [reflexivity|].
  unfold occurs; simpl.
  destruct (ascii_dec c a) as [->|N].
  - rewrite prefix_empty, Ascii.eqb_refl; simpl.
    apply Z.eqb_neq; lia.
  - apply Ascii.eqb_neq in N; rewrite N; simpl.
    apply IH; lia.
Qed.

Lemma find_char (c : ascii) (text : string) :
  negb (find text (String c "") =? -1)%Z = occurs c text.
Proof.
  unfold find; rewrite find_from_char by lia; apply negb_involutive.
Qed.

Section SearchFacts.

Context {V : Type} {vocabulary : Vocabulary V}.

(** What [textfield_did_change] does to the vocabulary and to the search
    control: the text goes to [set_query] as typed, and a [#] anywhere in
    it selects segment 1 and assigns [fulltext_toggle]. *)
Lemma textfield_did_change_vocab (st : App V) :
  let text := search_text (lookup_view st) in
  vocab (textfield_did_change st)
  = (if occurs "#" text
     then set_fulltext_toggle (set_query (vocab st) text) true
     else set_query (vocab st) text)
  /\ search_segment (lookup_view (textfield_did_change st))
     = (if occurs "#" text then 1%Z else search_segment (lookup_view st)).
Proof.
  intros text. unfold textfield_did_change. fold text.
  rewrite find_char.
  destruct (occurs "#" text); simpl.
  - destruct (is_editing (lookup_view st)); simpl; auto.
  - destruct (is_editing (lookup_view st)); simpl; auto.
Qed.

End SearchFacts.

(** ** The word store *)

Lemma filter_keeps_distinct {E K : Type} (key_of : E -> K)
  (keep : E -> bool) (es : list E) :
  NoDup (map key_of es) -> NoDup (map key_of (filter keep es)).
Proof.
  induction es as [|e es IH]; simpl; [auto|].
  intros N; inversion N as [|x xs Hx Hxs]; subst.
  destruct (keep e); simpl; [constructor|]; auto.
  intros I; apply Hx.
  apply in_map_iff in I; destruct I as (b & E' & I).
  apply filter_In in I; destruct I as [I _].
  apply in_map_iff; exists b; auto.
Qed.

Lemma NoDup_map_same {A B : Type} (f : A -> B) (l : list A) (a b : A) :
  NoDup (map f l) -> In a l -> In b l -> f a = f b -> a = b.
Proof.
  induction l as [|x l IH]; simpl; [tauto|].
  intros N; inversion N as [|y ys Hy Hys]; subst.
  intros [<-|Ia] [<-|Ib] E; auto.
  - elim Hy; rewrite E; apply in_map; exact Ib.
  - elim Hy; rewrite <- E; apply in_map; exact Ia.
Qed.

Section NoteFacts.

Context {V : Type} {vocabulary : Vocabulary V}.

(** The rows [textview_did_end_editing] sends on, in order. *)
Lemma textview_did_end_editing_log (self : view_id) (st : App V) :
  log (textview_did_end_editing self st)
  = log st
    ++ match snd (set_word (vocab st) (word_text (view self st))
                           (textview_text (view self st))) with
       | Some r => [InsertRows [r]]
       | None => []
       end
    ++ match snd (del_dup_word
                    (fst (set_word (vocab st) (word_text (view self st))
                                   (textview_text (view self st))))
                    (word_text (view self st))
                    (textview_text (view self st))) with
       | Some r => [DeleteRows [r]]
       | None => []
       end.
Proof.
  unfold textview_did_end_editing.
  destruct (set_word _ _ _) as [v1 [r|]]; simpl;
    destruct (del_dup_word v1 _ _) as [v2 [r'|]]; simpl;
    rewrite ?app_nil_r, <- ?app_assoc; reflexivity.
Qed.

(** The state [notes_edited] hands to the delegate. *)
Lemma typed_notes_frame (self : view_id) (notes : string) (st : App V) :
  let st0 := with_view self (with_textview_text notes (view self st)) st in
  vocab st0 = vocab st
  /\ log st0 = log st
  /\ word_text (view self st0) = word_text (view self st)
  /\ textview_text (view self st0) = notes.
Proof. destruct self; simpl; auto. Qed.

End NoteFacts.

Section StoreFacts.

Variable identity_key : string -> string.
Variable ordering : list (string * string) -> list (string * string).

Local Abbreviation SV := (store_vocabulary identity_key ordering).
Local Abbreviation key := (fun e : string * string => identity_key (fst e)).

(** The coordinate the store reports for a word is one at which [cell_at]
    finds the word. *)
Lemma coordinate_of_cell_at (v : Store) (word : string) (c : coord) :
  coordinate_of identity_key ordering v word = Some c ->
  cell_at identity_key ordering v (fst c) (snd c) = Some word.
Proof.
  unfold coordinate_of, cell_at, table_section.
  destruct (List.find _ (entries v)) as [e|]; [|discriminate].
  destruct (py_index word _) as [row|] eqn:E; [|discriminate].
  apply py_index_nth in E.
  intros [= <-]; simpl.
  destruct (truthy (query_text v)); exact E.
Qed.

Lemma existsb_word (word : string) (es : list (string * string)) :
  existsb (fun e => fst e =? word) es = true <-> In word (map fst es).
Proof.
  rewrite existsb_exists, in_map_iff.
  split; intros (e & A & B); exists e.
  - apply String.eqb_eq in B; auto.
  - split; [exact B | apply String.eqb_eq; exact A].
Qed.

(** Overwriting the notes of a word keeps every entry's word in place. *)
Lemma overwrite_keys (word notes : string) (es : list (string * string)) :
  map key (map (fun e => if fst e =? word then (word, notes) else e) es)
  = map key es.
Proof.
  rewrite map_map; apply map_ext; intros e.
  destruct (fst e =? word) eqn:E; [|reflexivity].
  apply String.eqb_eq in E; simpl; rewrite E; reflexivity.
Qed.

(** What [del_dup_word] finds is an entry with the word's identity key and
    another spelling. *)
Lemma stale_found (word : string) (es : list (string * string))
  (stale : string * string) :
  List.find (fun e => (identity_key (fst e) =? identity_key word)
                      && negb (fst e =? word)) es = Some stale ->
  In stale es
  /\ identity_key (fst stale) = identity_key word
  /\ fst stale <> word.
Proof.
  intros F; apply find_some in F; destruct F as [I F].
  apply andb_true_iff in F; destruct F as [K S].
  apply String.eqb_eq in K. apply negb_true_iff, String.eqb_neq in S. auto.
Qed.

(** One note edit, [set_word] then [del_dup_word], keeps the identity keys
    of the entries distinct. *)
Lemma edit_unique (v : Store) (word notes : string) :
  unique_keys identity_key v ->
  unique_keys identity_key
    (fst (store_del_dup_word identity_key ordering
            (fst (store_set_word identity_key ordering v word notes))
            word notes)).
Proof.
  unfold unique_keys, store_set_word. intros N.
  destruct (existsb _ (entries v)) eqn:X; cbn [fst].
  - assert (N' : NoDup (map key (map (fun e => if fst e =? word
                                              then (word, notes) else e)
                                     (entries v))))
      by (rewrite overwrite_keys; exact N).
    unfold store_del_dup_word; cbn [entries with_entries].
    destruct (List.find _ _); cbn [fst entries with_entries]; [|exact N'].
    apply filter_keeps_distinct; exact N'.
  - assert (W : ~ In word (map fst (entries v))).
    { intros I; apply existsb_word in I; rewrite I in X; discriminate. }
    unfold store_del_dup_word; cbn [entries with_entries].
    destruct (List.find _ _) as [stale|] eqn:F; cbn [fst entries with_entries].
    + apply stale_found in F; destruct F as (I & K & S).
      assert (Is : In stale (entries v)).
      { apply in_app_or in I; destruct I as [I|[<-|[]]]; [exact I|].
        elim S; reflexivity. }
      rewrite filter_app, map_app; simpl.
      assert (Sw : (word =? fst stale) = false)
        by (apply String.eqb_neq; congruence).
      rewrite Sw; simpl.
      apply NoDup_app;
        [apply filter_keeps_distinct; exact N | repeat constructor; simpl; tauto |].
      intros k Ik [<-|[]].
      apply in_map_iff in Ik; destruct Ik as (e & Ke & Ie).
      apply filter_In in Ie; destruct Ie as [Ie Ne].
      apply negb_true_iff, String.eqb_neq in Ne.
      apply Ne; f_equal.
      apply (NoDup_map_same key (entries v)); auto.
      simpl; congruence.
    + rewrite map_app; simpl.
      apply NoDup_app; [exact N | repeat constructor; simpl; tauto |].
      intros k Ik [<-|[]].
      apply in_map_iff in Ik; destruct Ik as (e & Ke & Ie).
      assert (T := find_none _ _ F e (in_or_app _ _ _ (or_introl Ie))).
      simpl in T. rewrite Ke, String.eqb_refl in T; simpl in T.
      apply negb_false_iff, String.eqb_eq in T.
      apply W; rewrite <- T; apply in_map; exact Ie.
Qed.

(** With the keys distinct, the stale duplicate of a word is the one entry
    [del_dup_word] finds once the word is written, and the word itself is
    new to the store. *)
Lemma stale_is_found (v : Store) (word notes stale : string) :
  unique_keys identity_key v ->
  In stale (map fst (entries v)) ->
  stale <> word ->
  identity_key stale = identity_key word ->
  ~ In word (map fst (entries v))
  /\ exists old,
       In (stale, old) (entries v)
       /\ List.find (fun e => (identity_key (fst e) =? identity_key word)
                              && negb (fst e =? word))
                    (entries v ++ [(word, notes)]) = Some (stale, old).
Proof.
  intros N I S K.
  apply in_map_iff in I; destruct I as ([s old] & E & I); simpl in E; subst s.
  split.
  - intros W; apply in_map_iff in W; destruct W as ([w n] & E & W).
    simpl in E; subst w.
    assert (X : (stale, old) = (word, n))
      by (apply (NoDup_map_same key (entries v)); auto).
    inversion X; auto.
  - exists old; split; [exact I|].
    destruct (List.find _ _) as [e|] eqn:F.
    + apply stale_found in F; destruct F as (Ie & Ke & Se).
      apply in_app_or in Ie; destruct Ie as [Ie|[<-|[]]];
        [|elim Se; reflexivity].
      f_equal; apply (NoDup_map_same key (entries v)); auto.
      simpl; congruence.
    + assert (T := find_none _ _ F (stale, old)
                     (in_or_app _ _ _ (or_introl I))).
      simpl in T. rewrite K, String.eqb_refl in T; simpl in T.
      apply negb_false_iff, String.eqb_eq in T. elim S; exact T.
Qed.

Lemma edit_all_unique (edits : list (view_id * string * string))
  (st : App Store) :
  unique_keys identity_key (vocab st) ->
  unique_keys identity_key
    (vocab (edit_all identity_key ordering edits st)).
Proof.
  revert st; induction edits as [|[[self word] notes] rest IH]; intros st N;
    [exact N|].
  cbn [edit_all]. apply IH. unfold edit_notes, notes_edited.
  destruct (textview_did_end_editing_frame (vocabulary := SV) self
              (with_view self
                 (with_textview_text notes
                    (view self (load_word (vocabulary := SV) self word false st)))
                 (load_word (vocabulary := SV) self word false st)))
    as (_ & _ & _ & ->).
  destruct (typed_notes_frame self notes
              (load_word (vocabulary := SV) self word false st))
    as (-> & _ & -> & ->).
  destruct (load_word_frame (vocabulary := SV) self word false st)
    as (-> & _ & -> & _).
  apply edit_unique; exact N.
Qed.

(** C1: the identity keys of the store's entries stay distinct under note
    edits.  From a store with distinct keys, every sequence of note edits
    ends in a store with distinct keys.  When the edited word has a stale
    duplicate, an entry with the same identity key and another spelling,
    the edit leaves the word as typed with the notes as typed, the one entry
    with that key; the stale spelling is gone; and the table is sent the row
    inserted for the word, then the row at which the stale duplicate was
    listed, for deletion. *)
Theorem note_edits_keep_keys_unique (st : App Store) :
  unique_keys identity_key (vocab st) ->
  (forall edits,
     unique_keys identity_key
       (vocab (edit_all identity_key ordering edits st)))
  /\ forall self notes stale,
       let word := word_text (view self st) in
       let st' := notes_edited (vocabulary := SV) self notes st in
       let v1 := fst (store_set_word identity_key ordering
                        (vocab st) word notes) in
       In stale (map fst (entries (vocab st))) ->
       stale <> word ->
       identity_key stale = identity_key word ->
       unique_keys identity_key (vocab st')
       /\ In (word, notes) (entries (vocab st'))
       /\ ~ In stale (map fst (entries (vocab st')))
       /\ (forall e, In e (entries (vocab st')) ->
                     identity_key (fst e) = identity_key word ->
                     e = (word, notes))
       /\ log st'
          = log st
            ++ match coordinate_of identity_key ordering v1 word with
               | Some c => [InsertRows [c]]
               | None => []
               end
            ++ match coordinate_of identity_key ordering v1 stale with
               | Some c => [DeleteRows [c]]
               | None => []
               end
       /\ forall c,
            coordinate_of identity_key ordering v1 stale = Some c ->
            cell_at identity_key ordering v1 (fst c) (snd c) = Some stale
            /\ In (DeleteRows [c]) (log st').
Proof.
  intros N. split; [intros edits; apply edit_all_unique; exact N|].
  intros self notes stale word st' v1 I S K.
  destruct (stale_is_found (vocab st) word notes stale N I S K)
    as (W & old & Io & F).
  assert (X : existsb (fun e => fst e =? word) (entries (vocab st)) = false).
  { destruct (existsb _ _) eqn:X; [|reflexivity].
    apply existsb_word in X; elim W; exact X. }
  assert (E1 : store_set_word identity_key ordering (vocab st) word notes
               = (with_entries (entries (vocab st) ++ [(word, notes)])
                               (vocab st),
                  coordinate_of identity_key ordering
                    (with_entries (entries (vocab st) ++ [(word, notes)])
                                  (vocab st)) word)).
  { unfold store_set_word; rewrite X; reflexivity. }
  assert (Ev1 : v1 = with_entries (entries (vocab st) ++ [(word, notes)])
                                  (vocab st))
    by (unfold v1; rewrite E1; reflexivity).
  assert (E2 : store_del_dup_word identity_key ordering v1 word notes
               = (with_entries
                    (filter (fun e => negb (fst e =? stale)) (entries v1)) v1,
                  coordinate_of identity_key ordering v1 stale)).
  { unfold store_del_dup_word. rewrite Ev1 at 1. cbn [entries with_entries].
    rewrite F. reflexivity. }
  assert (Vs : vocab st'
               = with_entries
                   (filter (fun e => negb (fst e =? stale)) (entries v1)) v1).
  { unfold st', notes_edited.
    destruct (textview_did_end_editing_frame (vocabulary := SV) self
                (with_view self (with_textview_text notes (view self st)) st))
      as (_ & _ & _ & ->).
    destruct (typed_notes_frame self notes st) as (-> & _ & -> & ->).
    fold word. cbn [set_word del_dup_word store_vocabulary].
    fold v1. rewrite E2. reflexivity. }
  assert (Ls : log st'
               = log st
                 ++ match coordinate_of identity_key ordering v1 word with
                    | Some c => [InsertRows [c]]
                    | None => []
                    end
                 ++ match coordinate_of identity_key ordering v1 stale with
                    | Some c => [DeleteRows [c]]
                    | None => []
                    end).
  { unfold st', notes_edited.
    rewrite (textview_did_end_editing_log (vocabulary := SV)).
    destruct (typed_notes_frame self notes st) as (-> & -> & -> & ->).
    fold word. cbn [set_word del_dup_word store_vocabulary].
    fold v1. rewrite E2. rewrite E1 at 1. cbn [snd]. rewrite <- Ev1.
    reflexivity. }
  assert (U : unique_keys identity_key (vocab st')).
  { rewrite Vs. 
    assert (T := edit_unique (vocab st) word notes N).
    fold v1 in T. rewrite E2 in T. exact T. }
  assert (Iw : In (word, notes) (entries (vocab st'))).
  { rewrite Vs, Ev1; cbn [entries with_entries].
    apply filter_In; split; [apply in_or_app; right; left; reflexivity|].
    apply negb_true_iff, String.eqb_neq; simpl; congruence. }
  split; [exact U|]. split; [exact Iw|]. split; [|split; [|split]].
  - rewrite Vs; cbn [entries with_entries]; intros Is.
    apply in_map_iff in Is; destruct Is as (e & Ee & Ie).
    apply filter_In in Ie; destruct Ie as [_ Ne].
    rewrite Ee, String.eqb_refl in Ne; discriminate.
  - intros e Ie Ke.
    apply (NoDup_map_same key (entries (vocab st'))); auto.
  - exact Ls.
  - intros c C; split; [apply coordinate_of_cell_at; exact C|].
    rewrite Ls, C. apply in_or_app; right; apply in_or_app; right.
    left; reflexivity.
Qed.

End StoreFacts.

(** C9 (as the script has it): the search field's text goes to the store's
    query as typed, marker and all; a [#] anywhere in the text, leading or
    not, selects the second segment of the search control and assigns
    [fulltext_toggle] the value [True]; a text without [#] leaves the
    control and the switch as they were.  First for any vocabulary, then
    read off the word store. *)
Theorem hash_anywhere_forces_fulltext (text : string) :
  (occurs "#" text = true <-> find text "#" <> (-1)%Z)
  /\ (forall (V : Type) (vocabulary : Vocabulary V) (st : App V),
        let st' := query_typed text st in
        vocab st'
        = (if occurs "#" text
           then set_fulltext_toggle (set_query (vocab st) text) true
           else set_query (vocab st) text)
        /\ search_segment (lookup_view st')
           = (if occurs "#" text then 1%Z
              else search_segment (lookup_view st)))
  /\ (forall identity_key ordering (st : App Store),
        let st' :=
          query_typed (vocabulary := store_vocabulary identity_key ordering)
            text st in
        query_text (vocab st') = text
        /\ fulltext_toggle (vocab st')
           = (if occurs "#" text then true else fulltext_toggle (vocab st))
        /\ entries (vocab st') = entries (vocab st)).
Proof.
  split; [|split].
  - rewrite <- find_char, negb_true_iff. apply Z.eqb_neq.
  - intros V vocabulary st st'. unfold st', query_typed.
    destruct (textfield_did_change_vocab
                (with_lookup (with_search_text text (lookup_view st)) st))
      as (Hv & Hs).
    cbn [search_text lookup_view with_lookup with_search_text vocab]
      in Hv, Hs.
    split; assumption.
  - intros identity_key ordering st st'. unfold st', query_typed.
    destruct (textfield_did_change_vocab
                (vocabulary := store_vocabulary identity_key ordering)
                (with_lookup (with_search_text text (lookup_view st)) st))
      as (Hv & _).
    cbn [search_text lookup_view with_lookup with_search_text vocab] in Hv.
    rewrite Hv.
    destruct (occurs "#" text); repeat split.
Qed.

(** ** The script on concrete words *)

(** C1, on the spec's example: the store holds "Cat" with no
    notes, the user opens "cat" and writes "meow". *)
Lemma note_edits_dedup_example :
  let st :=
    load_word (vocabulary := ascii_vocabulary) WordViewR "cat" false
      (launch [("Cat", "")] REGULAR) in
  let st' := notes_edited (vocabulary := ascii_vocabulary) WordViewR "meow" st in
  unique_keys lower (vocab st)
  /\ unique_keys lower (vocab st')
  /\ In ("cat", "meow") (entries (vocab st'))
  /\ ~ In "Cat" (map fst (entries (vocab st')))
  /\ In (DeleteRows [(1%nat, 0%nat)]) (log st').
Proof.
  intros st st'.
  assert (U : unique_keys lower (vocab st))
    by (vm_compute; repeat constructor; simpl; tauto).
  destruct (note_edits_keep_keys_unique lower newest_first st U) as [_ H].
  destruct (H WordViewR "meow" "Cat") as (A & B & C & _ & _ & D);
    [vm_compute; tauto | discriminate | reflexivity |].
  destruct (D (1%nat, 0%nat)) as [_ E]; [reflexivity|].
  repeat split; assumption.
Defined.

(** C5, on the spec's example: "banana" opened in compact mode,
    the layout changed to regular and back. *)
Lemma layout_round_trip_example :
  let st := layout (vocabulary := ascii_vocabulary)
              (launch [("banana", "tasty")] COMPACT) in
  let st2 := layout_changed (vocabulary := ascii_vocabulary) REGULAR
               (load_word_view (vocabulary := ascii_vocabulary) "banana" st) in
  let st3 := layout_changed (vocabulary := ascii_vocabulary) COMPACT st2 in
  word_text (word_view st2) = "banana"
  /\ nav_pushed (container st2) = []
  /\ map (fun v => word_text (view v st3)) (nav_pushed (container st3))
     = ["banana"]
  /\ open_words (container st3) = ["banana"].
Proof.
  intros st st2 st3.
  destruct (layout_round_trip (vocabulary := ascii_vocabulary) "banana" st)
    as (_ & (B & A & _) & (_ & C & _ & D & _) & _);
    [reflexivity | reflexivity | reflexivity |].
  repeat split; assumption.
Defined.

(** C2 as stated fails: "apple" is opened, then "banana"; the fetch for
    "apple" returns while the view shows "banana", and its result is what
    the web view then holds. *)
Lemma stale_fetch_is_applied :
  let d := mkDefineResult ["a round fruit"] "" in
  let st := run (vocabulary := ascii_vocabulary)
              [OpOpen "apple"; OpOpen "banana"]
              (layout (vocabulary := ascii_vocabulary) (launch [] REGULAR)) in
  let st' := run_background (vocabulary := ascii_vocabulary) d st in
  word_text (word_view st) = "banana"
  /\ hd_error (background st) = Some (WordViewR, "apple")
  /\ word_text (word_view st') = "banana"
  /\ html_definition (word_view st') = HtmlDefinition d
  /\ html_definition (word_view st') <> html_definition (word_view st).
Proof. vm_compute; repeat split; discriminate. Qed.

(** C3 as stated fails: "apple" is opened from the list and selected; a
    link then opens "zebra", which no section lists; the selection stays on
    the row of "apple" and is not cleared. *)
Lemma unresolved_word_keeps_selection :
  let st0 := run (vocabulary := ascii_vocabulary) [OpOpen "apple"]
               (layout (vocabulary := ascii_vocabulary)
                  (launch [("apple", "")] REGULAR)) in
  let st := link_word (vocabulary := ascii_vocabulary) WordViewR "zebra" st0 in
  selected_rows (lookup_view st0) = [(1%nat, 0%nat)]
  /\ word_text (word_view st) = "zebra"
  /\ py_index "zebra" (store_list_words lower newest_first (vocab st) 0) = None
  /\ py_index "zebra" (store_list_words lower newest_first (vocab st) 1) = None
  /\ selected_rows (lookup_view st) = [(1%nat, 0%nat)]
  /\ selected_rows
       (lookup_view (select_word (vocabulary := ascii_vocabulary) WordViewR st))
     <> [].
Proof. vm_compute; repeat split; discriminate. Qed.


(** C9 as stated fails: in "to #do" the marker is not the leading
    character, yet the store is switched to full-text search, and the text
    reaches the store's query with the marker in it. *)
Lemma hash_inside_forces_fulltext :
  let st := layout (vocabulary := ascii_vocabulary) (launch [] REGULAR) in
  let st' := query_typed (vocabulary := ascii_vocabulary) "to #do" st in
  String.prefix "#" "to #do" = false
  /\ fulltext_toggle (vocab st) = false
  /\ fulltext_toggle (vocab st') = true
  /\ query_text (vocab st') = "to #do".
Proof. vm_compute; repeat split. Qed.

(** * More properties of the script *)

Section CallbackFacts.

Context {V : Type} {vocabulary : Vocabulary V}.

Lemma load_word_other_view (self : view_id) (word : string) (force : bool)
  (st : App V) :
  match self with
  | WordViewR =>
      compact_word_view (load_word self word force st) = compact_word_view st
  | WordViewC => word_view (load_word self word force st) = word_view st
  end.
Proof.
  destruct (load_word_frame self word force st) as (_ & _ & _ & Ho).
  destruct self; [apply (Ho WordViewC) | apply (Ho WordViewR)]; discriminate.
Qed.

(** ** The pane a loaded word shows *)

(** X4: a [load_word] that does not return early shows the notes pane
    exactly when the vocabulary has notes for the word: with notes the
    first segment is selected, the text view is opaque over a transparent
    web container and the web view keeps its page; without notes the second
    segment is selected, the web container is opaque and shows the loading
    page.  Either way the placeholder is hidden and sharing enabled. *)
Theorem load_word_picks_pane (self : view_id) (word : string) (force : bool)
  (st : App V) :
  let w' := view self (load_word self word force st) in
  if (word_text (view self st) =? word) && negb force then
    load_word self word force st = st
  else
    word_text w' = word
    /\ textview_text w' = get_notes (vocab st) word
    /\ blank_hidden w' = true
    /\ share_enabled w' = true
    /\ if truthy (get_notes (vocab st) word) then
         segmented_index w' = 0%Z
         /\ textview_alpha w' = 1%Z /\ webcontainer_alpha w' = 0%Z
         /\ html_definition w' = html_definition (view self st)
       else
         segmented_index w' = 1%Z
         /\ textview_alpha w' = 0%Z /\ webcontainer_alpha w' = 1%Z
         /\ html_definition w' = HtmlLoading.
Proof.
  intros w'. unfold w', load_word.
  destruct ((word_text (view self st) =? word) && negb force);
    [reflexivity|].
  rewrite select_word_view.
  destruct (truthy (get_notes (vocab st) word)); destruct self; simpl;
    repeat split.
Qed.

(** ** Deleting the word shown *)

Lemma clear_twice (st : App V) :
  word_view (clear WordViewR (clear WordViewR st))
  = word_view (clear WordViewR st).
Proof. reflexivity. Qed.

(** The loop of [action_delete]: the right-hand view is cleared when the
    word it shows is among the deleted words and left alone when not. *)
Lemma clear_deleted_shown (words : list string) (st : App V) :
  compact_word_view (clear_deleted words st) = compact_word_view st
  /\ if existsb (String.eqb (word_text (word_view st))) words then
       word_view (clear_deleted words st) = word_view (clear WordViewR st)
       /\ open_words (container (clear_deleted words st)) = []
     else
       word_view (clear_deleted words st) = word_view st
       /\ container (clear_deleted words st) = container st.
Proof.
  revert st; induction words as [|word rest IH]; intros st;
    [simpl; auto|].
  cbn [clear_deleted existsb].
  destruct (word_text (word_view st) =? word) eqn:E; cbn [orb].
  - destruct (IH (clear WordViewR st)) as [Hc Hw].
    split; [rewrite Hc; reflexivity|].
    destruct (existsb _ rest).
    + destruct Hw as [Hw Ho]. rewrite Hw. split; [reflexivity | exact Ho].
    + destruct Hw as [Hw Ho]. rewrite Hw, Ho. split; reflexivity.
  - apply IH.
Qed.

(** X3: [action_delete] empties the right-hand view exactly when the word
    it shows is among the words the vocabulary reports deleted: the view
    then shows the placeholder, with the word, the notes and the page
    emptied and sharing disabled, and [open_words] is empty.  When the
    shown word is not among them the view, the open words and the
    navigation view stay as they were.  The compact view is never
    touched. *)
Theorem delete_clears_shown_word (st : App V) :
  let words :=
    snd (delete_multiple (vocab st) (selected_rows (lookup_view st))) in
  let st' := action_delete st in
  compact_word_view st' = compact_word_view st
  /\ vocab st'
     = fst (delete_multiple (vocab st) (selected_rows (lookup_view st)))
  /\ if existsb (String.eqb (word_text (word_view st))) words then
       word_text (word_view st') = ""
       /\ textview_text (word_view st') = ""
       /\ blank_hidden (word_view st') = false
       /\ share_enabled (word_view st') = false
       /\ html_definition (word_view st') = HtmlEmpty
       /\ open_words (container st') = []
     else
       word_view st' = word_view st /\ container st' = container st.
Proof.
  intros words st'. unfold st', words, action_delete.
  destruct (delete_multiple _ _) as [v' ws]; cbn [snd fst].
  destruct (clear_deleted_shown ws
              (emit (DeleteRows (map backwards (selected_rows (lookup_view st))))
                    (with_vocab v' st))) as [Hc Hw].
  destruct (clear_deleted_frame ws
              (emit (DeleteRows (map backwards (selected_rows (lookup_view st))))
                    (with_vocab v' st))) as (Hv & _).
  cbn [emit word_view compact_word_view container vocab with_vocab] in *.
  split; [exact Hc|]. split; [exact Hv|].
  destruct (existsb _ ws).
  - destruct Hw as [-> Ho]. repeat split; auto.
  - exact Hw.
Qed.

(** ** The search button of a word view *)

Lemma pop_each_frame (words : list string) (st : App V) :
  vocab (pop_each words st) = vocab st
  /\ word_view (pop_each words st) = word_view st
  /\ compact_word_view (pop_each words st) = compact_word_view st
  /\ lookup_view (pop_each words st) = lookup_view st
  /\ open_words (container (pop_each words st)) = open_words (container st)
  /\ last_layout (container (pop_each words st)) = last_layout (container st)
  /\ size_class (container (pop_each words st)) = size_class (container st)
  /\ nav_pushed (container (pop_each words st))
     = skipn (length words) (nav_pushed (container st)).
Proof.
  revert st; induction words as [|word rest IH]; intros st;
    [simpl; repeat split|].
  cbn [pop_each].
  destruct (IH (pop_view true st)) as (a & b & c & d & e & f & g & h).
  rewrite a, b, c, d, e, f, g, h. simpl.
  repeat split.
  destruct (nav_pushed (container st)); simpl; [rewrite skipn_nil|];
    reflexivity.
Qed.

Lemma load_word_view_frame (word : string) (st : App V) :
  vocab (load_word_view word st) = vocab st
  /\ size_class (container (load_word_view word st))
     = size_class (container st)
  /\ last_layout (container (load_word_view word st))
     = last_layout (container st)
  /\ open_words (container (load_word_view word st)) = [word]
  /\ nav_pushed (container (load_word_view word st))
     = (if (size_class (container st) =? REGULAR)%Z
        then nav_pushed (container st)
        else WordViewC :: nav_pushed (container st))
  /\ word_text (if (size_class (container st) =? REGULAR)%Z
                then word_view (load_word_view word st)
                else compact_word_view (load_word_view word st)) = word.
Proof.
  unfold load_word_view.
  destruct (size_class (container st) =? REGULAR)%Z.
  - destruct (load_word_frame WordViewR word false st) as (Hv & Hc & Hw & _).
    simpl. rewrite Hv, Hc. repeat split. exact Hw.
  - destruct (load_word_frame WordViewC word false st) as (Hv & Hc & Hw & _).
    simpl. rewrite Hv, Hc. repeat split. exact Hw.
Qed.

(** X7: the search button undoes the push of [load_word_view] only in
    compact mode.  After a word is opened, [action_search] leaves the
    navigation view as it was before the word was opened when the size
    class is compact (one push, one pop) or regular (none of either); for
    any other size class [load_word_view] has pushed the compact view and
    [action_search] pops nothing.  The word stays in [open_words] and in
    its view. *)
Theorem search_pops_what_open_pushed (word : string) (st : App V) :
  let st' := action_search (load_word_view word st) in
  nav_pushed (container st')
  = (if (size_class (container st) =? REGULAR)%Z then nav_pushed (container st)
     else if (size_class (container st) =? COMPACT)%Z
          then nav_pushed (container st)
          else WordViewC :: nav_pushed (container st))
  /\ open_words (container st') = [word]
  /\ word_text (if (size_class (container st) =? REGULAR)%Z
                then word_view st' else compact_word_view st') = word
  /\ vocab st' = vocab st.
Proof.
  intros st'. unfold st', action_search.
  destruct (load_word_view_frame word st) as (Hv & Hs & _ & Ho & Hn & Hw).
  rewrite Hs.
  destruct (size_class (container st) =? COMPACT)%Z eqn:C.
  - destruct (pop_each_frame (open_words (container (load_word_view word st)))
                (load_word_view word st))
      as (a & b & c & _ & e & _ & _ & h).
    rewrite a, b, c, e, h, Ho, Hn, Hv.
    apply Z.eqb_eq in C; rewrite C in *.
    change (COMPACT =? REGULAR)%Z with false in *. cbv iota in *.
    simpl. auto.
  - rewrite Ho, Hn, Hv. auto.
Qed.

End CallbackFacts.

Section MoreRoundTrips.

Context {V : Type} {vocabulary : Vocabulary V}.

(** ** Layout changes around an open word *)

(** X5: a word opened in regular mode stays in focus across the layouts.
    The change to compact hides the content column and pushes the compact
    view, showing the word, on whatever the navigation view held; the
    change back to regular pops it again, the navigation view ending as it
    began, and the right-hand view shows the word. *)
Theorem regular_round_trip (word : string) (st : App V) :
  size_class (container st) = REGULAR ->
  last_layout (container st) = Some REGULAR ->
  let st1 := load_word_view word st in
  let st2 := layout_changed COMPACT st1 in
  let st3 := layout_changed REGULAR st2 in
  (nav_pushed (container st1) = nav_pushed (container st)
   /\ word_text (word_view st1) = word)
  /\ (nav_pushed (container st2) = WordViewC :: nav_pushed (container st)
      /\ word_text (compact_word_view st2) = word
      /\ content_hidden (container st2) = true
      /\ open_words (container st2) = [word]
      /\ last_layout (container st2) = Some COMPACT)
  /\ (nav_pushed (container st3) = nav_pushed (container st)
      /\ word_text (word_view st3) = word
      /\ content_hidden (container st3) = false
      /\ open_words (container st3) = [word]
      /\ last_layout (container st3) = Some REGULAR).
Proof.
  intros S L st1 st2 st3.
  destruct (load_word_view_frame word st) as (_ & _ & L1 & O1 & N1 & W1).
  rewrite S in N1, W1. change (REGULAR =? REGULAR)%Z with true in N1, W1.
  cbv iota in N1, W1. rewrite L in L1. fold st1 in L1, O1, N1, W1.
  clearbody st1.
  assert (F2 : nav_pushed (container st2) = WordViewC :: nav_pushed (container st)
               /\ word_text (compact_word_view st2) = word
               /\ content_hidden (container st2) = true
               /\ open_words (container st2) = [word]
               /\ last_layout (container st2) = Some COMPACT
               /\ word_text (word_view st2) = word).
  { unfold st2. rewrite (to_compact st1 L1).
    rewrite set_compact_hides_content.
    destruct (set_compact_frame
                (with_container (with_size_class COMPACT (container st1)) st1))
      as (_ & Hw & Ho & Hl & _ & Hn & Hc).
    rewrite Hw, Ho, Hl, Hn, Hc. simpl. rewrite O1, N1. simpl.
    repeat split; auto. }
  destruct F2 as (N2 & C2 & H2 & O2 & L2 & W2). clearbody st2.
  assert (F3 : nav_pushed (container st3) = nav_pushed (container st)
               /\ word_text (word_view st3) = word
               /\ content_hidden (container st3) = false
               /\ open_words (container st3) = [word]
               /\ last_layout (container st3) = Some REGULAR).
  { unfold st3. rewrite (to_regular st2 L2).
    rewrite set_regular_shows_content.
    destruct (set_regular_frame
                (with_container (with_size_class REGULAR (container st2)) st2))
      as (_ & _ & Ho & Hl & _ & Hn & Hw).
    rewrite Ho, Hl, Hn, Hw.
    unfold last_layout_is. simpl. rewrite L2, O2, N2. simpl.
    repeat split; auto. }
  repeat split; try tauto.
Qed.

End MoreRoundTrips.

Section LinkFacts.

Context {V : Type} {vocabulary : Vocabulary V}.

Variable unquote : string -> string.

(** ** Links in the web views *)

Lemma webview_frame_container (self : view_id) (url : string)
  (parsed_url : ParseResult) (nav_type : string) (st : App V) :
  open_words
    (container
       (fst (fst (webview_should_start_load unquote self url parsed_url
                    nav_type st))))
  = open_words (container st).
Proof.
  unfold webview_should_start_load.
  destruct (nav_type =? "link_clicked");
    [destruct (scheme parsed_url =? "wordroom");
     [destruct (netloc parsed_url =? "word");
      [|destruct (netloc parsed_url =? "-change_key")]|]|];
    cbn [fst]; try reflexivity.
  - destruct (load_word_frame self (unquote (from_1 (path parsed_url))) false st)
      as (_ & -> & _); reflexivity.
  - destruct (load_word_frame self (word_text (view self st)) true st)
      as (_ & -> & _); reflexivity.
Qed.

(** X1: a web view of a word view never follows a clicked link itself:
    [webview_should_start_load] returns [False] on every link click and
    [True] on every other load, which it lets through touching nothing.
    A link of another scheme goes to Safari as given and a [wordroom] link
    of an unknown kind is only printed, the state staying as it was.
    Whatever the link, the vocabulary, the container (open words,
    navigation view, layout) and the other word view stay as they were. *)
Theorem webview_never_navigates (self : view_id) (url : string)
  (parsed_url : ParseResult) (nav_type : string) (st : App V) :
  let '(st', ret, outside) :=
    webview_should_start_load unquote self url parsed_url nav_type st in
  ret = negb (nav_type =? "link_clicked")
  /\ (if nav_type =? "link_clicked" then
        if scheme parsed_url =? "wordroom" then
          if (netloc parsed_url =? "word")
             || (netloc parsed_url =? "-change_key")
          then ~ In (OpenInSafari url) outside
          else st' = st /\ outside = [PrintUnknown parsed_url]
        else st' = st /\ outside = [OpenInSafari url]
      else st' = st /\ outside = [])
  /\ vocab st' = vocab st
  /\ container st' = container st
  /\ match self with
     | WordViewR => compact_word_view st' = compact_word_view st
     | WordViewC => word_view st' = word_view st
     end.
Proof.
  unfold webview_should_start_load.
  destruct (nav_type =? "link_clicked");
    [destruct (scheme parsed_url =? "wordroom");
     [destruct (netloc parsed_url =? "word");
      [|destruct (netloc parsed_url =? "-change_key")]|]|];
    cbn [negb orb].
  - destruct (load_word_frame self (unquote (from_1 (path parsed_url))) false st)
      as (Hv & Hc & _).
    split; [reflexivity|]. split; [intros []|].
    split; [exact Hv|]. split; [exact Hc|]. apply load_word_other_view.
  - destruct (load_word_frame self (word_text (view self st)) true st)
      as (Hv & Hc & _).
    split; [reflexivity|]. split; [intros [F|[]]; discriminate|].
    split; [exact Hv|]. split; [exact Hc|]. apply load_word_other_view.
  - repeat split; destruct self; reflexivity.
  - repeat split; destruct self; reflexivity.
  - repeat split; destruct self; reflexivity.
Qed.

(** X12: a clicked [wordroom] link loads a word into the view of the web
    view it was clicked in.  A [word] link to the word the view already
    shows changes nothing and fetches nothing; to another word it shows
    that word and queues one fetch for it.  A [-change_key] link opens the
    key dialog and reloads the word shown with the flag forced, so one
    fetch for it is queued although the word is unchanged. *)
Theorem wordroom_links_load_words (self : view_id) (url : string)
  (parsed_url : ParseResult) (st : App V) :
  scheme parsed_url = "wordroom" ->
  let linked := unquote (from_1 (path parsed_url)) in
  let '(st', _, outside) :=
    webview_should_start_load unquote self url parsed_url "link_clicked" st in
  if netloc parsed_url =? "word" then
    outside = []
    /\ word_text (view self st') = linked
    /\ if word_text (view self st) =? linked then st' = st
       else
         textview_text (view self st') = get_notes (vocab st) linked
         /\ background st' = background st ++ [(self, linked)]
  else if netloc parsed_url =? "-change_key" then
    outside = [ChangeKeyDialog]
    /\ word_text (view self st') = word_text (view self st)
    /\ textview_text (view self st')
       = get_notes (vocab st) (word_text (view self st))
    /\ background st' = background st ++ [(self, word_text (view self st))]
  else st' = st /\ outside = [PrintUnknown parsed_url].
Proof.
  intros Hs linked. unfold webview_should_start_load.
  rewrite Hs. cbn [String.eqb Ascii.eqb Bool.eqb].
  destruct (netloc parsed_url =? "word");
    [|destruct (netloc parsed_url =? "-change_key")].
  - fold linked. split; [reflexivity|].
    destruct (load_word_frame self linked false st) as (_ & _ & Hw & _).
    split; [exact Hw|].
    destruct (word_text (view self st) =? linked) eqn:E.
    + apply String.eqb_eq in E. apply load_word_skip; exact E.
    + assert (E' : (word_text (view self st) =? linked) && negb false = false)
        by (rewrite E; reflexivity).
      destruct (load_word_reload self linked false st E')
        as (st1 & -> & _ & Hn & _ & _ & _ & _ & _ & _ & Hq & _).
      destruct (select_word_frame self st1) as (_ & _ & _ & _ & Sb).
      rewrite select_word_view, Sb. split; [exact Hn | exact Hq].
  - split; [reflexivity|].
    destruct (load_word_reload self (word_text (view self st)) true st)
      as (st1 & -> & Hw & Hn & _ & _ & _ & _ & _ & _ & Hq & _);
      [apply andb_false_r|].
    destruct (select_word_frame self st1) as (_ & _ & _ & _ & Sb).
    rewrite !select_word_view, Sb. repeat split; assumption.
  - split; reflexivity.
Qed.

(** X2: a word reached through a link is not tracked as open.  With a word
    opened in compact mode, a clicked [wordroom://word/] link loads the
    linked word into the compact view and leaves [open_words] holding the
    word first opened; the change to regular mode then pops the compact
    view and the right-hand view shows the word first opened, not the
    linked one. *)
Theorem link_is_not_tracked (url : string) (parsed_url : ParseResult)
  (word : string) (st : App V) :
  size_class (container st) = COMPACT ->
  last_layout (container st) = Some COMPACT ->
  scheme parsed_url = "wordroom" ->
  netloc parsed_url = "word" ->
  let st1 := load_word_view word st in
  let st2 :=
    fst (fst (webview_should_start_load unquote WordViewC url parsed_url
                "link_clicked" st1)) in
  let st3 := layout_changed REGULAR st2 in
  word_text (compact_word_view st2) = unquote (from_1 (path parsed_url))
  /\ open_words (container st2) = [word]
  /\ nav_pushed (container st2) = WordViewC :: nav_pushed (container st)
  /\ word_text (word_view st3) = word
  /\ word_text (compact_word_view st3) = unquote (from_1 (path parsed_url))
  /\ nav_pushed (container st3) = nav_pushed (container st).
Proof.
  intros S L Hs Hn st1 st2 st3.
  destruct (load_word_view_frame word st) as (_ & _ & L1 & O1 & N1 & _).
  rewrite S in N1. change (COMPACT =? REGULAR)%Z with false in N1.
  cbv iota in N1. rewrite L in L1. fold st1 in L1, O1, N1. clearbody st1.
  assert (E2 : st2 = load_word WordViewC (unquote (from_1 (path parsed_url)))
                       false st1).
  { unfold st2, webview_should_start_load. rewrite Hs, Hn. reflexivity. }
  destruct (load_word_frame WordViewC (unquote (from_1 (path parsed_url)))
              false st1) as (_ & Hc & Hw & _).
  rewrite <- E2 in Hc, Hw. simpl in Hw. clearbody st2.
  assert (L2 : last_layout (container st2) = Some COMPACT)
    by (rewrite Hc; exact L1).
  assert (F3 : word_text (word_view st3) = word
               /\ word_text (compact_word_view st3)
                  = unquote (from_1 (path parsed_url))
               /\ nav_pushed (container st3) = nav_pushed (container st)).
  { unfold st3. rewrite (to_regular st2 L2).
    destruct (set_regular_frame
                (with_container (with_size_class REGULAR (container st2)) st2))
      as (_ & Hcv & _ & _ & _ & Hnp & Hwv).
    rewrite Hcv, Hnp, Hwv.
    unfold last_layout_is. simpl. rewrite L2, Hc, O1, N1. simpl.
    repeat split; auto. }
  rewrite Hc, O1, N1. tauto.
Qed.

End LinkFacts.

Section FlagFacts.

Context {V : Type} {vocabulary : Vocabulary V}.

(** ** The edit bar *)

Lemma select_word_flags (self : view_id) (st : App V) :
  edit_flags (lookup_view (select_word self st)) = edit_flags (lookup_view st).
Proof.
  unfold select_word.
  destruct (py_index _ _); [destruct (negb _)|]; reflexivity.
Qed.

Lemma load_word_flags (self : view_id) (word : string) (force : bool)
  (st : App V) :
  edit_flags (lookup_view (load_word self word force st))
  = edit_flags (lookup_view st).
Proof.
  destruct ((word_text (view self st) =? word) && negb force) eqn:E.
  - unfold load_word; rewrite E; reflexivity.
  - destruct (load_word_reload self word force st E)
      as (st1 & -> & _ & _ & _ & _ & _ & _ & Hl & _).
    rewrite select_word_flags, Hl. reflexivity.
Qed.

Lemma load_word_view_flags (word : string) (st : App V) :
  edit_flags (lookup_view (load_word_view word st))
  = edit_flags (lookup_view st).
Proof.
  unfold load_word_view.
  destruct (size_class (container st) =? REGULAR)%Z; simpl;
    apply load_word_flags.
Qed.

Lemma push_open_words_flags (words : list string) (st : App V) :
  edit_flags (lookup_view (push_open_words words st))
  = edit_flags (lookup_view st).
Proof.
  revert st; induction words as [|word rest IH]; intros st; [reflexivity|].
  cbn [push_open_words]. rewrite IH. simpl. apply load_word_flags.
Qed.

Lemma pop_open_words_flags (words : list string) (st : App V) :
  edit_flags (lookup_view (pop_open_words words st))
  = edit_flags (lookup_view st).
Proof.
  revert st; induction words as [|word rest IH]; intros st; [reflexivity|].
  cbn [pop_open_words]. rewrite IH, load_word_flags. reflexivity.
Qed.

Lemma layout_flags (st : App V) :
  edit_flags (lookup_view (layout st)) = edit_flags (lookup_view st).
Proof.
  destruct (layout_cases st) as [(_ & _ & ->)|[(_ & _ & ->)|(-> & _)]];
    [| |reflexivity].
  - unfold set_regular. simpl.
    destruct (last_layout_is COMPACT _); [|reflexivity].
    rewrite pop_open_words_flags. reflexivity.
  - unfold set_compact. simpl. rewrite push_open_words_flags. reflexivity.
Qed.

Lemma textview_did_end_editing_flags (self : view_id) (st : App V) :
  edit_flags (lookup_view (textview_did_end_editing self st))
  = edit_flags (lookup_view st).
Proof.
  unfold textview_did_end_editing.
  destruct (set_word _ _ _) as [v1 [r|]]; simpl;
    destruct (del_dup_word v1 _ _) as [v2 [r'|]]; reflexivity.
Qed.

Lemma textfield_did_change_flags (st : App V) :
  edit_flags (lookup_view (textfield_did_change st))
  = edit_flags (lookup_view st).
Proof.
  unfold textfield_did_change, action_switch_search, textfield_did_end_editing.
  destruct (negb (find _ _ =? -1)%Z); simpl;
    destruct (negb (is_editing (lookup_view st))); reflexivity.
Qed.

(** The callbacks of [Op] other than a row selection leave the editing
    flag and the two buttons alone. *)
Lemma step_flags (o : Op) (st : App V) :
  edit_flags (lookup_view (step o st)) = edit_flags (lookup_view st)
  \/ (editing (lookup_view st) = true
      /\ edit_flags (lookup_view (step o st)) = (true, true, true)).
Proof.
  destruct o as [word|section row|self word|self|d|self notes| |m|text|i];
    cbn [step].
  - left; apply load_word_view_flags.
  - unfold tableview_did_select.
    destruct (editing (lookup_view st)) eqn:E.
    + right; split; [reflexivity|]. unfold edit_flags; simpl.
      rewrite ?E; reflexivity.
    + left. destruct (tableview_cell_for_row _ _ _);
        [apply load_word_view_flags | reflexivity].
  - left; apply load_word_flags.
  - left; apply load_word_flags.
  - left; unfold run_background.
    destruct (background st) as [|[self word] rest]; [reflexivity|].
    destruct (load_definition_frame self word d (with_background rest st))
      as (_ & -> & _); reflexivity.
  - left; unfold notes_edited. rewrite textview_did_end_editing_flags.
    destruct self; reflexivity.
  - left; unfold action_delete.
    destruct (delete_multiple _ _) as [v' words].
    match goal with
    | |- context [clear_deleted ?ws ?s] =>
        destruct (clear_deleted_frame ws s) as (_ & Hl & _)
    end.
    simpl in *. rewrite Hl. reflexivity.
  - left; unfold layout_changed. rewrite layout_flags. reflexivity.
  - left; unfold query_typed. rewrite textfield_did_change_flags. reflexivity.
  - left; reflexivity.
Qed.

End FlagFacts.

Section EditMode.

Context {V : Type} {vocabulary : Vocabulary V}.

Variable unquote : string -> string.

Lemma ui_step_edit_buttons (o : UiOp) (s : App V * Bars) :
  edit_buttons_ok (lookup_view (fst s)) = true ->
  edit_buttons_ok (lookup_view (fst (ui_step unquote o s))) = true.
Proof.
  assert (K : forall l l' : LookupView,
             edit_flags l' = edit_flags l ->
             edit_buttons_ok l = true -> edit_buttons_ok l' = true).
  { intros l l' E. unfold edit_flags in E. injection E as E1 E2 E3.
    unfold edit_buttons_ok. rewrite E1, E2, E3. auto. }
  destruct s as [st b].
  destruct o as [o| | |section row| | | |self url parsed_url nav_type];
    cbn [ui_step fst snd]; intros Hok.
  - destruct (step_flags o st) as [E|[_ E]].
    + apply (K _ _ E Hok).
    + unfold edit_flags in E. injection E as E1 E2 E3.
      unfold edit_buttons_ok. rewrite E1, E2, E3. reflexivity.
  - unfold edit_buttons_ok; simpl. apply implb_true_r.
  - reflexivity.
  - unfold tableview_did_deselect.
    destruct (selected_rows (lookup_view st)); [|exact Hok].
    destruct (editing (lookup_view st)) eqn:E; [|exact Hok].
    unfold edit_buttons_ok; simpl. reflexivity.
  - unfold action_search.
    destruct (size_class (container st) =? COMPACT)%Z; [|exact Hok].
    destruct (pop_each_frame (open_words (container st)) st)
      as (_ & _ & _ & -> & _). exact Hok.
  - unfold action_cancel.
    apply (K (lookup_view st)); [|exact Hok].
    rewrite textfield_did_change_flags. reflexivity.
  - unfold textfield_should_return. cbn [fst].
    destruct (truthy _); [|exact Hok].
    apply (K (lookup_view st)); [apply load_word_view_flags | exact Hok].
  - unfold webview_should_start_load.
    destruct (nav_type =? "link_clicked");
      [destruct (scheme parsed_url =? "wordroom");
       [destruct (netloc parsed_url =? "word");
        [|destruct (netloc parsed_url =? "-change_key")]|]|];
      cbn [fst]; try exact Hok;
      apply (K (lookup_view st)); try exact Hok; apply load_word_flags.
Qed.

(** X6: the Delete and Share buttons of the edit bar are enabled only
    while the table is in editing mode.  Every callback keeps it so:
    selecting a row enables them in editing mode only, [start_editing]
    leaves them as they are, [end_editing] disables both, deselecting the
    last row in editing mode disables both, and no other callback touches
    the flag or the buttons. *)
Theorem edit_buttons_only_while_editing (ops : list UiOp)
  (s : App V * Bars) :
  edit_buttons_ok (lookup_view (fst s)) = true ->
  edit_buttons_ok (lookup_view (fst (ui_run unquote ops s))) = true
  /\ (editing (lookup_view (fst (ui_run unquote ops s))) = false ->
      delete_enabled (lookup_view (fst (ui_run unquote ops s))) = false
      /\ share_multiple_enabled (lookup_view (fst (ui_run unquote ops s)))
         = false).
Proof.
  intros Hok.
  assert (R : edit_buttons_ok (lookup_view (fst (ui_run unquote ops s))) = true).
  { revert s Hok; induction ops as [|o rest IH]; intros s Hok; [exact Hok|].
    cbn [ui_run]. apply IH, ui_step_edit_buttons, Hok. }
  split; [exact R|].
  unfold edit_buttons_ok in R. intros E. rewrite E in R.
  destruct (delete_enabled _), (share_multiple_enabled _);
    simpl in R; try discriminate; auto.
Qed.

(** ** The open words, over every callback *)

Lemma ui_step_open_words (o : UiOp) (s : App V * Bars) :
  open_words (container (fst (ui_step unquote o s)))
  = open_words (container (fst s))
  \/ open_words (container (fst (ui_step unquote o s))) = []
  \/ exists word,
       open_words (container (fst (ui_step unquote o s))) = [word].
Proof.
  destruct s as [st b].
  destruct o as [o| | |section row| | | |self url parsed_url nav_type];
    cbn [ui_step fst snd].
  - apply step_open_words.
  - left; reflexivity.
  - left; reflexivity.
  - left; unfold tableview_did_deselect.
    destruct (selected_rows _); [destruct (editing _)|]; reflexivity.
  - left; unfold action_search.
    destruct (size_class (container st) =? COMPACT)%Z; [|reflexivity].
    destruct (pop_each_frame (open_words (container st)) st)
      as (_ & _ & _ & _ & -> & _). reflexivity.
  - left; unfold action_cancel. rewrite textfield_did_change_container.
    reflexivity.
  - unfold textfield_should_return. cbn [fst].
    destruct (truthy _); [|left; reflexivity].
    right; right; eexists; reflexivity.
  - left.
    pose proof (webview_frame_container unquote self url parsed_url nav_type st) as E.
    exact E.
Qed.

(** X11: [open_words] holds one word at most under every callback of the
    lookup screen and the word views, the edit bar, the search field, the
    search button and the links included: each one leaves the list as it
    was, empty, or with one word, so every run from
    [AdaptiveView.__init__] keeps it at one word at most. *)
Theorem ui_open_words_at_most_one (ops : list UiOp) (st : App V)
  (b : Bars) :
  (length (open_words
             (container (fst (ui_run unquote ops (restarted st, b))))) <= 1)%nat
  /\ forall o s,
       open_words (container (fst (ui_step unquote o s)))
       = open_words (container (fst s))
       \/ open_words (container (fst (ui_step unquote o s))) = []
       \/ exists word,
            open_words (container (fst (ui_step unquote o s))) = [word].
Proof.
  split; [|apply ui_step_open_words].
  assert (G : forall s : App V * Bars,
             (length (open_words (container (fst s))) <= 1)%nat ->
             (length (open_words (container (fst (ui_run unquote ops s))))
              <= 1)%nat).
  { induction ops as [|o rest IH]; intros s Hs; [exact Hs|].
    cbn [ui_run]. apply IH.
    destruct (ui_step_open_words o s) as [E|[E|[word E]]]; rewrite E;
      simpl; lia. }
  apply G. simpl. lia.
Qed.

End EditMode.

(** ** The search field *)

Lemma lstrip_only_spaces (n : nat) (s : string) :
  (String.length s <= n)%nat -> only_spaces s = true -> lstrip s = "".
Proof.
  revert s; induction n as [|n IH]; intros s L O.
  - destruct s; [reflexivity | simpl in L; lia].
  - destruct s as [|a r1]; [reflexivity|].
    cbn [lstrip only_spaces] in O |- *. cbn [String.length] in L.
    destruct (space1 a); [apply IH; [lia | exact O]|].
    destruct r1 as [|b r2]; [discriminate|]. cbn [String.length] in L.
    destruct (space2 a b); [apply IH; [lia | exact O]|].
    destruct r2 as [|c r3]; [discriminate|]. cbn [String.length] in L.
    destruct (space3 a b c); [apply IH; [lia | exact O] | discriminate].
Qed.

Lemma strip_only_spaces (s : string) :
  only_spaces s = true -> strip s = "".
Proof.
  intros A. unfold strip.
  rewrite (lstrip_only_spaces (String.length s) s (le_n _) A). reflexivity.
Qed.

Section SearchFieldFacts.

Context {V : Type} {vocabulary : Vocabulary V}.

(** X9: a query of white space only opens the empty word.
    [textfield_should_return] tests the text before stripping it, so a
    text that is not empty but made only of characters [str.isspace]
    accepts (ASCII or not) reaches [load_word_view] as the empty string:
    [open_words] becomes the list of the empty word.  In
    regular mode a right-hand view already showing no word is left as it
    is, and one showing a word is loaded with the empty word, a fetch for
    it queued; in any other mode the compact view is pushed. *)
Theorem blank_query_opens_empty_word (st : App V) :
  truthy (search_text (lookup_view st)) = true ->
  only_spaces (search_text (lookup_view st)) = true ->
  let st' := fst (textfield_should_return st) in
  snd (textfield_should_return st) = true
  /\ st' = load_word_view "" st
  /\ open_words (container st') = [""]
  /\ if (size_class (container st) =? REGULAR)%Z then
       if word_text (word_view st) =? "" then
         word_view st' = word_view st
         /\ background st' = background st
         /\ log st' = log st
       else
         word_text (word_view st') = ""
         /\ blank_hidden (word_view st') = true
         /\ background st' = background st ++ [(WordViewR, "")]
     else nav_pushed (container st') = WordViewC :: nav_pushed (container st).
Proof.
  intros T A st'.
  assert (E : st' = load_word_view "" st).
  { unfold st', textfield_should_return. rewrite T, (strip_only_spaces _ A).
    reflexivity. }
  split; [reflexivity|]. split; [exact E|]. rewrite E.
  destruct (load_word_view_frame "" st) as (_ & _ & _ & Ho & Hn & Hw).
  split; [exact Ho|].
  destruct (size_class (container st) =? REGULAR)%Z eqn:R; [|exact Hn].
  unfold load_word_view. rewrite R.
  destruct (word_text (word_view st) =? "") eqn:W.
  - apply String.eqb_eq in W.
    rewrite (load_word_skip WordViewR "" st W). repeat split.
  - assert (W' : (word_text (view WordViewR st) =? "") && negb false = false)
      by (simpl; rewrite W; reflexivity).
    destruct (load_word_reload WordViewR "" false st W')
      as (st1 & L & Hw1 & _ & Hb & _ & _ & _ & _ & _ & Hq & _).
    rewrite L.
    destruct (select_word_frame WordViewR st1) as (_ & Sw & _ & _ & Sb).
    simpl. rewrite Sw, Sb. simpl in Hw1, Hb. auto.
Qed.

(** X8: cancelling a search empties the query and nothing else of the
    search: [action_cancel] hands the empty text to [set_query], never
    assigns [fulltext_toggle] and leaves the segment of the search control
    selected.  So a search switched to full text by a [#] stays full text
    after the text is cancelled. *)
Theorem cancel_keeps_scope (text : string) :
  (forall st : App V,
     vocab (action_cancel st) = set_query (vocab st) ""
     /\ search_text (lookup_view (action_cancel st)) = ""
     /\ search_segment (lookup_view (action_cancel st))
        = search_segment (lookup_view st)
     /\ container (action_cancel st) = container st)
  /\ (forall st : App V,
        vocab (action_cancel (query_typed text st))
        = set_query
            (if occurs "#" text
             then set_fulltext_toggle (set_query (vocab st) text) true
             else set_query (vocab st) text) ""
        /\ search_segment (lookup_view (action_cancel (query_typed text st)))
           = (if occurs "#" text then 1%Z
              else search_segment (lookup_view st))).
Proof.
  assert (G : forall st : App V,
             vocab (action_cancel st) = set_query (vocab st) ""
             /\ search_text (lookup_view (action_cancel st)) = ""
             /\ search_segment (lookup_view (action_cancel st))
                = search_segment (lookup_view st)
             /\ container (action_cancel st) = container st).
  { intros st. unfold action_cancel.
    destruct (textfield_did_change_vocab
                (with_lookup (with_search_text "" (lookup_view st)) st))
      as (Hv & Hs).
    cbn [search_text lookup_view with_lookup with_search_text vocab
         search_segment] in Hv, Hs.
    change (occurs "#" "") with false in Hv, Hs. cbv iota in Hv, Hs.
    split; [exact Hv|]. split; [|split; [exact Hs|]].
    - unfold textfield_did_change, textfield_did_end_editing. simpl.
      destruct (is_editing (lookup_view st)); reflexivity.
    - rewrite textfield_did_change_container. reflexivity. }
  split; [exact G|].
  intros st. destruct (G (query_typed text st)) as (Hv & _ & Hs & _).
  rewrite Hv, Hs. unfold query_typed.
  destruct (textfield_did_change_vocab
              (with_lookup (with_search_text text (lookup_view st)) st))
    as (Hv' & Hs').
  cbn [search_text lookup_view with_lookup with_search_text vocab] in Hv', Hs'.
  rewrite Hv', Hs'. split; reflexivity.
Qed.

End SearchFieldFacts.

(** ** The export format *)

Lemma append_lf_inv (w1 w2 r1 r2 : string) :
  ~ In "010"%char (list_ascii_of_string w1) ->
  ~ In "010"%char (list_ascii_of_string w2) ->
  (w1 ++ String "010" r1)%string = (w2 ++ String "010" r2)%string ->
  w1 = w2 /\ r1 = r2.
Proof.
  revert w2; induction w1 as [|a w1 IH]; intros [|b w2] N1 N2 E; simpl in *.
  - inversion E; auto.
  - inversion E; subst. elim N2; left; reflexivity.
  - inversion E; subst. elim N1; left; reflexivity.
  - inversion E; subst.
    destruct (IH w2) as [-> ->]; auto.
Qed.

(** X10: the export format can be read back.  For words without a line
    feed, [export_notes_format] gives equal texts only for equal words and
    equal notes: the word is what precedes the first line feed and the
    notes are what follows the blank line. *)
Theorem export_notes_format_injective (word1 notes1 word2 notes2 : string) :
  ~ In "010"%char (list_ascii_of_string word1) ->
  ~ In "010"%char (list_ascii_of_string word2) ->
  export_notes_format word1 notes1 = export_notes_format word2 notes2 ->
  word1 = word2 /\ notes1 = notes2.
Proof.
  unfold export_notes_format, LF. intros N1 N2 E.
  destruct (append_lf_inv word1 word2 _ _ N1 N2 E) as [-> R].
  split; [reflexivity|]. simpl in R. inversion R; reflexivity.
Qed.

Section ColumnFacts.

Context {V : Type} {vocabulary : Vocabulary V}.

(** ** The columns *)




End ColumnFacts.

Section SearchBarFacts.

Context {V : Type} {vocabulary : Vocabulary V}.

(** ** The search bar *)

(** The search field's text, flag and button after
    [textfield_did_change]. *)
Lemma textfield_did_change_bar (st : App V) :
  search_text (lookup_view (textfield_did_change st))
  = search_text (lookup_view st)
  /\ is_editing (lookup_view (textfield_did_change st))
     = is_editing (lookup_view st)
  /\ cancel_enabled (lookup_view (textfield_did_change st))
     = (if is_editing (lookup_view st) then cancel_enabled (lookup_view st)
        else if truthy (search_text (lookup_view st))
             then cancel_enabled (lookup_view st) else false).
Proof.
  unfold textfield_did_change, action_switch_search, textfield_did_end_editing.
  destruct (negb (find _ _ =? -1)%Z); simpl;
    destruct (is_editing (lookup_view st)) eqn:E; simpl; rewrite ?E;
    repeat split.
Qed.

Lemma search_step_ok (o : SearchOp) (s : App V * SearchFrames) :
  search_bar_ok s ->
  search_bar_ok (search_step o s)
  /\ lookup_width (snd (search_step o s)) = lookup_width (snd s)
  /\ cancel_width (snd (search_step o s)) = cancel_width (snd s).
Proof.
  destruct s as [st f]. unfold search_bar_ok. cbn [fst snd].
  intros [I G].
  destruct (is_editing (lookup_view st)) eqn:E;
    destruct (truthy (search_text (lookup_view st))) eqn:T;
    cbn [orb] in I; rewrite I in G; destruct G as [G1 G2];
    destruct o as [|text| |]; cbn [search_step]; rewrite ?E;
    try (cbn [fst snd]; rewrite ?I, ?E, ?T; cbn [orb]; auto; fail).
  all: try (unfold textfield_did_begin_editing; rewrite ?T; cbn;
            rewrite ?I, ?G1, ?G2; repeat split; auto; lia).
  all: try (unfold textfield_did_end_editing,
              textfield_did_end_editing_frames;
            cbn; rewrite ?T, ?I; cbn; rewrite ?G1, ?G2;
            repeat split; auto; lia).
  all: try (destruct (textfield_did_change_bar
                        (with_lookup (with_search_text text (lookup_view st))
                                     st)) as (Ht & He & Hc);
            cbn [fst snd]; rewrite Ht, He, Hc;
            unfold textfield_did_change_frames;
            cbn [lookup_view with_lookup with_search_text is_editing
                 search_text cancel_enabled];
            rewrite ?E, ?I; cbn [negb orb]; auto; fail).
  all: unfold action_cancel;
    destruct (textfield_did_change_bar
                (with_lookup (with_search_text "" (lookup_view st)) st))
      as (Ht & He & Hc);
    cbn [fst snd]; rewrite Ht, He, Hc;
    unfold textfield_did_change_frames, textfield_did_end_editing_frames;
    cbn [lookup_view with_lookup with_search_text is_editing search_text
         cancel_enabled];
    change (truthy "") with false; rewrite ?E, ?I; cbn;
    repeat split; auto; lia.
Qed.

(** X14: the Cancel button follows the search field.  From a search bar
    in which the button is enabled exactly when the field is being edited
    or holds text and is placed accordingly, every sequence of the
    delegate's callbacks, delivered as the framework delivers them, ends
    in such a bar: enabled, the button sits 6 points inside the right edge
    and the field ends 6 points before it; disabled, the button is parked
    6 points outside the right edge and the field spans the view but for 6
    points on each side. *)
Theorem cancel_button_follows_field (ops : list SearchOp)
  (s : App V * SearchFrames) :
  search_bar_ok s ->
  search_bar_ok (search_run ops s)
  /\ lookup_width (snd (search_run ops s)) = lookup_width (snd s)
  /\ cancel_width (snd (search_run ops s)) = cancel_width (snd s).
Proof.
  revert s; induction ops as [|o rest IH]; intros s Hs; [auto|].
  cbn [search_run].
  destruct (search_step_ok o s Hs) as (H1 & H2 & H3).
  destruct (IH _ H1) as (A & B & C).
  rewrite B, C, H2, H3. auto.
Qed.

End SearchBarFacts.

(** ** More of the script on concrete words *)

(** X2 on an example: "banana" is opened in compact mode and a link to
    "pear" is clicked in its page. *)
Lemma link_is_not_tracked_example :
  let st := layout (vocabulary := ascii_vocabulary) (launch [] COMPACT) in
  let st1 := load_word_view (vocabulary := ascii_vocabulary) "banana" st in
  let st2 :=
    fst (fst (webview_should_start_load (vocabulary := ascii_vocabulary)
                (fun s => s) WordViewC "wordroom://word/pear"
                (mkParseResult "wordroom" "word" "/pear")
                "link_clicked" st1)) in
  word_text (compact_word_view st2) = "pear"
  /\ open_words (container st2) = ["banana"]
  /\ word_text
       (word_view (layout_changed (vocabulary := ascii_vocabulary) REGULAR st2))
     = "banana".
Proof.
  intros st st1 st2.
  destruct (link_is_not_tracked (vocabulary := ascii_vocabulary) (fun s => s)
              "wordroom://word/pear"
              (mkParseResult "wordroom" "word" "/pear") "banana" st)
    as (A & B & _ & C & _);
    [reflexivity | reflexivity | reflexivity | reflexivity |].
  repeat split; assumption.
Defined.

(** X5 on an example: "banana" opened in regular mode, the layout changed
    to compact and back. *)
Lemma regular_round_trip_example :
  let st := layout (vocabulary := ascii_vocabulary)
              (launch [("banana", "tasty")] REGULAR) in
  let st2 := layout_changed (vocabulary := ascii_vocabulary) COMPACT
               (load_word_view (vocabulary := ascii_vocabulary) "banana" st) in
  let st3 := layout_changed (vocabulary := ascii_vocabulary) REGULAR st2 in
  nav_pushed (container st2) = [WordViewC]
  /\ word_text (compact_word_view st2) = "banana"
  /\ nav_pushed (container st3) = []
  /\ word_text (word_view st3) = "banana".
Proof.
  intros st st2 st3.
  destruct (regular_round_trip (vocabulary := ascii_vocabulary) "banana" st)
    as (_ & (A & B & _) & (C & D & _));
    [reflexivity | reflexivity |].
  repeat split; assumption.
Defined.

(** X6 on an example: the edit bar is opened, a row is selected and the
    bar is closed again. *)
Lemma edit_buttons_example :
  let s := (launch [("apple", "")] REGULAR,
            mkBars false true (0, 556, 320, 44)%Z (0, 556, 320, 44)%Z) in
  let ops := [UiStartEditing; UiScript (OpSelect 1 0); UiEndEditing] in
  edit_buttons_ok
    (lookup_view
       (fst (ui_run (vocabulary := ascii_vocabulary) (fun s => s) ops s)))
  = true.
Proof.
  intros s ops.
  destruct (edit_buttons_only_while_editing (vocabulary := ascii_vocabulary)
              (fun s => s) ops s) as [A _]; [reflexivity|].
  exact A.
Defined.

(** X9 on an example: an em space (U+2003, the bytes 226 128 131) and a
    space are typed in the search field and the return key is pressed. *)
Lemma blank_query_example :
  let text := String "226" (String "128" (String "131" " ")) in
  let st := with_lookup (with_search_text text idle_lookup_view)
              (layout (vocabulary := ascii_vocabulary) (launch [] REGULAR)) in
  open_words
    (container
       (fst (textfield_should_return (vocabulary := ascii_vocabulary) st)))
  = [""].
Proof.
  intros text st.
  destruct (blank_query_opens_empty_word (vocabulary := ascii_vocabulary) st)
    as (_ & _ & A & _); [reflexivity | reflexivity |].
  exact A.
Defined.

(** X10 on an example. *)
Lemma export_notes_format_example :
  export_notes_format "cat" "meow" = export_notes_format "cat" "meow"
  /\ "cat" = "cat" /\ "meow" = "meow".
Proof.
  split; [reflexivity|].
  apply (export_notes_format_injective "cat" "meow" "cat" "meow");
    [simpl; intros [F|[F|[F|[]]]]; discriminate
    | simpl; intros [F|[F|[F|[]]]]; discriminate
    | reflexivity].
Defined.

(** X12 on an example: the key link is clicked in the page of "apple". *)
Lemma key_link_example :
  let st := run (vocabulary := ascii_vocabulary) [OpOpen "apple"]
              (layout (vocabulary := ascii_vocabulary) (launch [] REGULAR)) in
  let r := webview_should_start_load (vocabulary := ascii_vocabulary)
             (fun s => s) WordViewR "wordroom://-change_key"
             (mkParseResult "wordroom" "-change_key" "")
             "link_clicked" st in
  word_text (word_view (fst (fst r))) = "apple"
  /\ background (fst (fst r))
     = [(WordViewR, "apple"); (WordViewR, "apple")]
  /\ snd r = [ChangeKeyDialog].
Proof.
  intros st r.
  pose proof (wordroom_links_load_words (vocabulary := ascii_vocabulary)
                (fun s => s) WordViewR "wordroom://-change_key"
                (mkParseResult "wordroom" "-change_key" "") st eq_refl) as P.
  fold r in P. destruct r as [[st' ret] outside].
  cbn [netloc String.eqb Ascii.eqb Bool.eqb] in P.
  destruct P as (A & B & _ & C).
  repeat split; assumption.
Defined.

(** X14 on an example: the field is entered, "ap" is typed, the field is
    left and the search is cancelled. *)
Lemma cancel_button_example :
  let s := (launch [] REGULAR, mkSearchFrames 308 326 60 320) in
  let ops := [SearchBegin; SearchType "ap"; SearchEnd; SearchCancel] in
  search_bar_ok s
  /\ search_bar_ok (search_run (vocabulary := ascii_vocabulary) ops s).
Proof.
  intros s ops.
  assert (H : search_bar_ok s)
    by (unfold search_bar_ok; simpl; repeat split).
  split; [exact H|].
  destruct (cancel_button_follows_field (vocabulary := ascii_vocabulary) ops s H)
    as [A _].
  exact A.
Defined.
